(** * pvw: the lsof parser, the row formatter and the bubbletea controller

    A shallow embedding of [main.go].  Go strings are byte strings
    ([string] over [ascii]); Go's [int] is [Z]; a Go call that can return an
    error or stop with a run-time panic returns a [result]. *)

From Stdlib Require Import ZArith List Bool Ascii String Lia.
From Stdlib Require Import Numbers.DecimalString.
From Stdlib Require Numbers.DecimalPos.
Import ListNotations.

Open Scope Z_scope.
Open Scope string_scope.

(** ** Errors, panics and results *)

(** The error values that reach this program: the exit status of a command
    run through [os/exec], the [*strconv.NumError] of [strconv.Atoi], and any
    other error value, kept as its message. *)
Inductive error : Type :=
| ExitError (code : Z)
| NumError (Func Num Err : string)
| OtherError (msg : string).

(** The run-time panics of the slicing and indexing expressions. *)
Inductive panic : Type :=
| IndexOutOfRange
| SliceBoundsOutOfRange.

Inductive result (A : Type) : Type :=
| Ok (a : A)
| Err (e : error)
| Panic (p : panic).

Arguments Ok {A} a.
Arguments Err {A} e.
Arguments Panic {A} p.

Definition bind {A B : Type} (r : result A) (k : A -> result B) : result B :=
  match r with
  | Ok a => k a
  | Err e => Err e
  | Panic p => Panic p
  end.

Notation "x <- r ;; k" := (bind r (fun x => k))
  (at level 61, r at next level, right associativity).

(** ** The string and slice primitives of Go that the program uses *)

Definition LF : ascii := "010"%char.
Definition DQUOTE : ascii := "034"%char.

(** [strings.Join(ls, "\n")], used to write raw lsof text readably. *)
Fixpoint lines (ls : list string) : string :=
  match ls with
  | [] => ""
  | [l] => l
  | l :: rest => l ++ String LF (lines rest)
  end.

(** [strings.Contains(s, substr)]. *)
Fixpoint Contains (s substr : string) : bool :=
  prefix substr s ||
  match s with
  | EmptyString => false
  | String _ s' => Contains s' substr
  end.

(** The scan of [strings.Split(s, sep)] for a non-empty [sep]: [cur] is the
    piece being collected, [skip] the bytes of a separator still to drop. *)
Fixpoint splitFrom (sep : string) (skip : nat) (cur s : string) : list string :=
  match s with
  | EmptyString => [cur]
  | String c s' =>
      match skip with
      | S k => splitFrom sep k cur s'
      | O =>
          if prefix sep s
          then cur :: splitFrom sep (Nat.pred (length sep)) "" s'
          else splitFrom sep O (cur ++ String c "") s'
      end
  end.

(** [strings.Split(s, sep)]; every separator in [main.go] is non-empty. *)
Definition Split (s sep : string) : list string := splitFrom sep O "" s.

(** [l[i]] on a slice. *)
Definition index {A : Type} (l : list A) (i : nat) : result A :=
  match nth_error l i with
  | Some a => Ok a
  | None => Panic IndexOutOfRange
  end.

(** [l[1:]] on a slice. *)
Definition sliceFrom1 {A : Type} (l : list A) : result (list A) :=
  match l with
  | [] => Panic SliceBoundsOutOfRange
  | _ :: rest => Ok rest
  end.

(** [s[n:]] on a string. *)
Fixpoint strFrom (n : nat) (s : string) : result string :=
  match n, s with
  | O, _ => Ok s
  | S _, EmptyString => Panic SliceBoundsOutOfRange
  | S k, String _ s' => strFrom k s'
  end.

(** [s[0:n]] on a string. *)
Fixpoint strTo (n : nat) (s : string) : result string :=
  match n, s with
  | O, _ => Ok ""
  | S _, EmptyString => Panic SliceBoundsOutOfRange
  | S k, String c s' => t <- strTo k s' ;; Ok (String c t)
  end.

(** [slices.Contains(l, x)] on a slice of strings. *)
Definition slicesContains (l : list string) (x : string) : bool :=
  existsb (String.eqb x) l.

(** [strconv.Itoa]. *)
Definition Itoa (n : Z) : string := NilZero.string_of_int (Z.to_int n).

Definition isDigit (c : ascii) : bool :=
  let n := nat_of_ascii c in (48 <=? n)%nat && (n <=? 57)%nat.

Definition digitVal (c : ascii) : Z := Z.of_nat (nat_of_ascii c) - 48.

Fixpoint digits (acc : Z) (s : string) : option Z :=
  match s with
  | EmptyString => Some acc
  | String c s' =>
      if isDigit c then digits (acc * 10 + digitVal c) s' else None
  end.

Definition ErrSyntax : string := "invalid syntax".
Definition ErrRange : string := "value out of range".

Definition maxInt : Z := 2 ^ 63 - 1.
Definition minInt : Z := - 2 ^ 63.

(** [strconv.Atoi] on a 64-bit platform: an optional sign, then one or more
    decimal digits, the value within the range of [int]. *)
Definition Atoi (s : string) : result Z :=
  let body := match s with
              | String "+" t => (false, t)
              | String "-" t => (true, t)
              | _ => (false, s)
              end in
  match snd body with
  | EmptyString => Err (NumError "Atoi" s ErrSyntax)
  | _ =>
      match digits 0 (snd body) with
      | None => Err (NumError "Atoi" s ErrSyntax)
      | Some n =>
          let v := if fst body then - n else n in
          if (minInt <=? v)%Z && (v <=? maxInt)%Z then Ok v
          else Err (NumError "Atoi" s ErrRange)
      end
  end.

(** [err.Error()]: [os/exec] prints an exit status as [exit status N];
    [strconv] prints the offending text between double quotes (its escapes
    for quotes and unprintable bytes inside that text are not reproduced). *)
Definition Error (e : error) : string :=
  match e with
  | ExitError code => "exit status " ++ Itoa code
  | NumError f n m =>
      "strconv." ++ f ++ ": parsing " ++ String DQUOTE (n ++ String DQUOTE (": " ++ m))
  | OtherError msg => msg
  end.

Definition upper (c : ascii) : ascii :=
  let n := nat_of_ascii c in
  if (97 <=? n)%nat && (n <=? 122)%nat then ascii_of_nat (n - 32) else c.

(** [strings.ToTitle] on the ASCII letters of a status token. *)
Fixpoint ToTitle (s : string) : string :=
  match s with
  | EmptyString => ""
  | String c s' => String (upper c) (ToTitle s')
  end.

(** ** Important structs *)

Module Connection.
Record connection : Type := mk {
  protocol : string;
  status : string;
  remotePort : string;
  remoteAddress : string;
  localPort : string;
  localAddress : string
}.

(** The zero value [connection{}]. *)
Definition zero : connection := mk "" "" "" "" "" "".

Definition setProtocol (v : string) (c : connection) : connection :=
  mk v (status c) (remotePort c) (remoteAddress c) (localPort c) (localAddress c).
Definition setStatus (v : string) (c : connection) : connection :=
  mk (protocol c) v (remotePort c) (remoteAddress c) (localPort c) (localAddress c).
Definition setRemotePort (v : string) (c : connection) : connection :=
  mk (protocol c) (status c) v (remoteAddress c) (localPort c) (localAddress c).
Definition setRemoteAddress (v : string) (c : connection) : connection :=
  mk (protocol c) (status c) (remotePort c) v (localPort c) (localAddress c).
Definition setLocalPort (v : string) (c : connection) : connection :=
  mk (protocol c) (status c) (remotePort c) (remoteAddress c) v (localAddress c).
Definition setLocalAddress (v : string) (c : connection) : connection :=
  mk (protocol c) (status c) (remotePort c) (remoteAddress c) (localPort c) v.
End Connection.
Abbreviation connection := Connection.connection.

Module Process.
Record process : Type := mk {
  id : Z;
  name : string;
  directory : string;
  connections : list connection;
  username : string
}.
End Process.
Abbreviation process := Process.process.

(** [table.Column] of the bubbles library. *)
Module Column.
Record Column : Type := mk { Title : string; Width : Z }.
End Column.
Abbreviation Column := Column.Column.

(** [table.Row]. *)
Definition Row : Type := list string.

Module Settings.
Record settings : Type := mk {
  readOnly : bool;
  showClosed : bool;
  listenOnly : bool;
  getCwd : bool;
  columns : list Column;
  portFilter : list string;
  nameFilter : list string
}.
End Settings.
Abbreviation settings := Settings.settings.

(** ** The external commands

    What [cmd.Output()] and [cmd.Run()] return for the three commands the
    program runs: [lsof -i -Pn -F cPnpLT], [lsof -p PID -F n] and
    [kill PID]. *)
Module World.
Record world : Type := mk {
  lsof : string * option error;
  lsof_p : string -> string * option error;
  kill : string -> option error
}.
End World.
Abbreviation world := World.world.

(** ** LSOF processing *)

Definition getLsof (w : world) : string * option error :=
  match World.lsof w with
  | (_, Some err) => ("", Some err)
  | (out, None) => (out, None)
  end.

Definition getCwd (w : world) (pid : Z) : result string :=
  let pidString := Itoa pid in
  match World.lsof_p w pidString with
  | (_, Some err) => Err err
  | (out, None) =>
      let cwdSplit := Split out ("fcwd" ++ String LF "n") in
      if (List.length cwdSplit <? 1)%nat then Ok ""
      else
        second <- index cwdSplit 1 ;;
        index (Split second (String LF "")) 0
  end.

(** The [n] field: local and remote addresses and ports, then the port
    filter. *)
Definition parseAddress (options : settings) (address : string)
    (tmpConnection : connection) (valid : bool) : result (connection * bool) :=
  if address =? "*:*" then Ok (tmpConnection, false)
  else
    let splitLocalAndRemote := Split address "->" in
    parsed <-
      (if (1 <? List.length splitLocalAndRemote)%nat then
         local <- index splitLocalAndRemote 0 ;;
         remote <- index splitLocalAndRemote 1 ;;
         let splitLocalAddressAndPort := Split local ":" in
         let splitRemoteAddressAndPort := Split remote ":" in
         la <- index splitLocalAddressAndPort 0 ;;
         lp <- index splitLocalAddressAndPort 1 ;;
         ra <- index splitRemoteAddressAndPort 0 ;;
         rp <- index splitRemoteAddressAndPort 1 ;;
         Ok (Connection.setRemotePort rp
               (Connection.setRemoteAddress ra
                  (Connection.setLocalPort lp
                     (Connection.setLocalAddress la tmpConnection))))
       else
         local <- index splitLocalAndRemote 0 ;;
         let splitLocalAddressAndPort := Split local ":" in
         la <- index splitLocalAddressAndPort 0 ;;
         lp <- index splitLocalAddressAndPort 1 ;;
         Ok (Connection.setLocalPort lp
               (Connection.setLocalAddress la tmpConnection))) ;;
    if (0 <? List.length (Settings.portFilter options))%nat then
      if negb (slicesContains (Settings.portFilter options) (Connection.localPort parsed)
               || slicesContains (Settings.portFilter options) (Connection.remotePort parsed))
      then Ok (parsed, false)
      else Ok (parsed, valid)
    else Ok (parsed, valid).

(** The [T] field: only [TST=] is read. *)
Definition parseStatus (options : settings) (connectionProperty : string)
    (tmpConnection : connection) (valid : bool) : result (connection * bool) :=
  tag <- strTo 4 connectionProperty ;;
  if tag =? "TST=" then
    state <- strFrom 4 connectionProperty ;;
    let tmpConnection := Connection.setStatus state tmpConnection in
    let valid := if (state =? "CLOSED") && Settings.showClosed options
                 then false else valid in
    let valid := if Settings.listenOnly options && negb (state =? "LISTEN")
                 then false else valid in
    Ok (tmpConnection, valid)
  else Ok (tmpConnection, valid).

(** One line of a connection segment: the switch on its first byte. *)
Definition parseProperty (options : settings) (st : connection * bool)
    (connectionProperty : string) : result (connection * bool) :=
  let (tmpConnection, valid) := st in
  match connectionProperty with
  | EmptyString => Ok st
  | String tag rest =>
      if Ascii.eqb tag "P" then
        Ok (Connection.setProtocol rest tmpConnection, valid)
      else if Ascii.eqb tag "n" then
        parseAddress options rest tmpConnection valid
      else if Ascii.eqb tag "T" then
        parseStatus options connectionProperty tmpConnection valid
      else Ok st
  end.

Fixpoint parseProperties (options : settings) (connectionInfo : list string)
    (st : connection * bool) : result (connection * bool) :=
  match connectionInfo with
  | [] => Ok st
  | connectionProperty :: rest =>
      st' <- parseProperty options st connectionProperty ;;
      parseProperties options rest st'
  end.

(** One connection segment: the connection it describes and whether it is
    still valid. *)
Definition parseConnection (options : settings) (connectionString : string)
    : result (connection * bool) :=
  parseProperties options (Split connectionString (String LF ""))
    (Connection.zero, true).

Fixpoint parseConnections (options : settings) (segments : list string)
    (allConnections : list connection) : result (list connection) :=
  match segments with
  | [] => Ok allConnections
  | connectionString :: rest =>
      r <- parseConnection options connectionString ;;
      let (tmpConnection, valid) := r in
      parseConnections options rest
        (if valid then (allConnections ++ [tmpConnection])%list else allConnections)
  end.

(** The body of the loop over the process blocks: the process to append, if
    any. *)
Definition parseProcess (w : world) (options : settings) (processIndex : nat)
    (processString : string) : result (option process) :=
  let connectionSplit := Split processString (String LF "f") in
  header <- index connectionSplit 0 ;;
  let processInfo := Split header (String LF "") in
  first <- index processInfo 0 ;;
  pidText <- (if (processIndex =? 0)%nat then strFrom 1 first else Ok first) ;;
  pid <- Atoi pidText ;;
  finalCwd <- (if Settings.getCwd options then getCwd w pid else Ok "") ;;
  second <- index processInfo 1 ;;
  cmd <- strFrom 1 second ;;
  if negb (0 <? List.length (Settings.nameFilter options))%nat
     || slicesContains (Settings.nameFilter options) cmd
  then
    third <- index processInfo 2 ;;
    user <- strFrom 1 third ;;
    segments <- sliceFrom1 connectionSplit ;;
    allConnections <- parseConnections options segments [] ;;
    if (0 <? List.length allConnections)%nat then
      Ok (Some (Process.mk pid cmd finalCwd allConnections user))
    else Ok None
  else Ok None.

Fixpoint parseBlocks (w : world) (options : settings) (processIndex : nat)
    (separated : list string) (allProcesses : list process)
    : result (list process) :=
  match separated with
  | [] => Ok allProcesses
  | processString :: rest =>
      r <- parseProcess w options processIndex processString ;;
      parseBlocks w options (S processIndex) rest
        (match r with
         | Some p => (allProcesses ++ [p])%list
         | None => allProcesses
         end)
  end.

Definition parseLsof (w : world) (raw : string) (options : settings)
    : result (list process) :=
  parseBlocks w options O (Split raw (String LF "p")) [].

(** The value of one cell: the switch on the column's title. *)
Definition cell (proc : process) (connIndex : nat) (conn : connection)
    (column : Column) : string :=
  let title := Column.Title column in
  if title =? "PID" then
    if (connIndex =? 0)%nat then Itoa (Process.id proc) else ""
  else if title =? "Name" then
    if (connIndex =? 0)%nat then Process.name proc else ""
  else if title =? "Directory" then
    if (connIndex =? 0)%nat then Process.directory proc else ""
  else if title =? "Owner" then
    if (connIndex =? 0)%nat then Process.username proc else ""
  else if title =? "Protocol" then Connection.protocol conn
  else if title =? "Address" then
    if negb (Connection.remoteAddress conn =? "")
    then Connection.remoteAddress conn
    else Connection.localAddress conn
  else if title =? "Port" then
    if negb (Connection.remotePort conn =? "")
    then Connection.remotePort conn
    else Connection.localPort conn
  else if title =? "Local Address" then Connection.localAddress conn
  else if title =? "Local Port" then Connection.localPort conn
  else if title =? "Remote Address" then Connection.remoteAddress conn
  else if title =? "Remote Port" then Connection.remotePort conn
  else if title =? "Status" then ToTitle (Connection.status conn)
  else "".

(** The loop over [proc.connections], from index [connIndex] on. *)
Fixpoint formatConnections (options : settings) (proc : process)
    (connIndex : nat) (conns : list connection) (rows : list Row) : list Row :=
  match conns with
  | [] => rows
  | conn :: rest =>
      let row := map (cell proc connIndex conn) (Settings.columns options) in
      formatConnections options proc (S connIndex) rest (rows ++ [row])%list
  end.

(** The loop over [processes]. *)
Fixpoint formatProcesses (options : settings) (processes : list process)
    (rows : list Row) (rowStarts : list Z) : list Row * list Z :=
  match processes with
  | [] => (rows, rowStarts)
  | proc :: rest =>
      let rowStarts := (rowStarts ++ [Z.of_nat (List.length rows)])%list in
      let rows := formatConnections options proc O (Process.connections proc) rows in
      formatProcesses options rest rows rowStarts
  end.

Definition formatLsof (processes : list process) (options : settings)
    : list Row * list Z * option error :=
  let (rows, rowStarts) := formatProcesses options processes [] [] in
  (rows, rowStarts, None).

(** ** Messages and commands *)

Inductive Msg : Type :=
| processesMsg (processes : list process) (rows : list Row) (ends : list Z)
| errMsg (err : error)
| terminateMsg
| WindowSizeMsg (Width Height : Z)
| KeyMsg (key : string)
| QuitMsg.  (* the message of [tea.Quit]; [Update] has no case for it *)

(** A [tea.Cmd] is a closure; the three the program builds are named here
    and their bodies are [checkProcesses], [terminateProcess] and
    [tea.Quit]. *)
Inductive Cmd : Type :=
| CheckProcesses (settingsInfo : settings)
| TerminateProcess (id : Z)
| Quit.

Definition checkProcesses (w : world) (settingsInfo : settings) : result Msg :=
  match getLsof w with
  | (_, Some err) =>
      if negb (Error err =? "1") then Ok (processesMsg [] [] [])
      else Ok (errMsg err)
  | (out, None) =>
      match parseLsof w out settingsInfo with
      | Panic p => Panic p
      | Err err => Ok (errMsg err)
      | Ok parsed =>
          let '(formatted, ends, _) := formatLsof parsed settingsInfo in
          Ok (processesMsg parsed formatted ends)
      end
  end.

Definition terminateProcess (w : world) (id : Z) : Msg :=
  match World.kill w (Itoa id) with
  | Some err => errMsg err
  | None => terminateMsg
  end.

Definition runCmd (w : world) (cmd : Cmd) : result Msg :=
  match cmd with
  | CheckProcesses settingsInfo => checkProcesses w settingsInfo
  | TerminateProcess id => Ok (terminateProcess w id)
  | Quit => Ok QuitMsg
  end.

(** ** Keybindings *)

Module Binding.
Record Binding : Type := mk { keys : list string; disabled : bool }.
End Binding.
Abbreviation Binding := Binding.Binding.

(** [key.NewBinding(key.WithKeys(...), key.WithHelp(...))]. *)
Definition NewBinding (ks : list string) : Binding := Binding.mk ks false.

(** [key.Matches(msg, b)]. *)
Definition Matches (k : string) (b : Binding) : bool :=
  negb (Binding.disabled b) && existsb (String.eqb k) (Binding.keys b).

Module KeyMap.
Record keyMap : Type := mk {
  Up : Binding;
  Down : Binding;
  Terminate : Binding;
  Refresh : Binding;
  Help : Binding;
  Quit : Binding
}.
End KeyMap.
Abbreviation keyMap := KeyMap.keyMap.

Definition keys : keyMap :=
  KeyMap.mk
    (NewBinding ["up"; "k"])
    (NewBinding ["down"; "j"])
    (NewBinding ["t"])
    (NewBinding ["r"])
    (NewBinding ["?"])
    (NewBinding ["q"; "ctrl+c"]).

(** ** MODEL *)

(** What the program reads of [table.Model] and of [help.Model].  The
    field [inputStyle] of the model is never read and is left out. *)
Module Table.
Record Model : Type := mk { cursor : Z; rows : list Row }.
Definition Cursor (t : Model) : Z := cursor t.
End Table.

Module HelpModel.
Record Model : Type := mk { Width : Z; ShowAll : bool }.
End HelpModel.

Module Model.
Record model : Type := mk {
  table : Table.Model;
  rowStarts : list Z;
  processes : list process;
  err : option error;
  settings : Settings.settings;
  keys : keyMap;
  help : HelpModel.Model
}.
End Model.
Abbreviation model := Model.model.

(** ** Update *)

(** The scan of the terminate key from index [i] on; [rest] is
    [m.processes[i:]], so its head is [m.processes[i]]. *)
Fixpoint terminateScan (cursor i : Z) (rest : list process) : option Cmd :=
  match rest with
  | [] => None
  | p :: rest' =>
      if (i >=? cursor)%Z then Some (TerminateProcess (Process.id p))
      else terminateScan cursor (i + 1) rest'
  end.

Section Controller.

(** The two methods of the table widget that change it: [SetRows] and
    [Update]. *)
Variable SetRows : Table.Model -> list Row -> Table.Model.
Variable tableUpdate : Table.Model -> Msg -> Table.Model * option Cmd.

(** The last two lines of [Update]. *)
Definition updateTable (m : model) (msg : Msg) : model * option Cmd :=
  let (t, cmd) := tableUpdate (Model.table m) msg in
  (Model.mk t (Model.rowStarts m) (Model.processes m) (Model.err m)
     (Model.settings m) (Model.keys m) (Model.help m), cmd).

Definition Update (m : model) (msg : Msg) : model * option Cmd :=
  match msg with
  | processesMsg processes rows ends =>
      (Model.mk (SetRows (Model.table m) rows) ends processes (Model.err m)
         (Model.settings m) (Model.keys m) (Model.help m), None)
  | terminateMsg => (m, Some (CheckProcesses (Model.settings m)))
  | errMsg err =>
      (Model.mk (Model.table m) (Model.rowStarts m) (Model.processes m)
         (Some err) (Model.settings m) (Model.keys m) (Model.help m), None)
  | WindowSizeMsg Width _ =>
      updateTable
        (Model.mk (Model.table m) (Model.rowStarts m) (Model.processes m)
           (Model.err m) (Model.settings m) (Model.keys m)
           (HelpModel.mk Width (HelpModel.ShowAll (Model.help m))))
        msg
  | KeyMsg k =>
      if Matches k (KeyMap.Refresh (Model.keys m)) then
        (m, Some (CheckProcesses (Model.settings m)))
      else if Matches k (KeyMap.Terminate keys) then
        if (0 <? List.length (Model.processes m))%nat then
          let cursor := Table.Cursor (Model.table m) in
          (m, terminateScan cursor 0 (Model.processes m))
        else (m, None)
      else if Matches k (KeyMap.Help keys) then
        updateTable
          (Model.mk (Model.table m) (Model.rowStarts m) (Model.processes m)
             (Model.err m) (Model.settings m) (Model.keys m)
             (HelpModel.mk (HelpModel.Width (Model.help m))
                (negb (HelpModel.ShowAll (Model.help m)))))
          msg
      else if Matches k (KeyMap.Quit keys) then (m, Some Quit)
      else updateTable m msg
  | QuitMsg => updateTable m msg
  end.

End Controller.

(** ** The view *)

(** The scan of [strings.Count(s, substr)] for a non-empty [substr]:
    occurrences that do not overlap. *)
Fixpoint countFrom (substr : string) (skip : nat) (s : string) : nat :=
  match s with
  | EmptyString => O
  | String _ s' =>
      match skip with
      | S k => countFrom substr k s'
      | O =>
          if prefix substr s
          then S (countFrom substr (Nat.pred (length substr)) s')
          else countFrom substr O s'
      end
  end.

Definition Count (s substr : string) : nat := countFrom substr O s.

(** [strings.Repeat(s, count)] for a count that is not negative. *)
Fixpoint Repeat (s : string) (count : nat) : string :=
  match count with
  | O => ""
  | S k => s ++ Repeat s k
  end.

(** What [View] returns: the text, or the panic of [strings.Repeat] on a
    negative count. *)
Inductive viewResult : Type :=
| Rendered (text : string)
| NegativeRepeatCount.

(** [View], given the two texts the widgets render: [tableView] is
    [baseStyle.Render(m.table.View())] and [helpView] is
    [m.help.View(m.keys)]. *)
Definition View (tableView helpView : string) (m : model) : viewResult :=
  let final := tableView ++ String LF "" in
  let final := match Model.err m with
               | Some err => final ++ Error err ++ String LF ""
               | None => final
               end in
  let height := (17 - Z.of_nat (Count final (String LF ""))
                 - Z.of_nat (Count helpView (String LF "")))%Z in
  if (height <? 0)%Z then NegativeRepeatCount
  else Rendered (String LF "" ++ final
                 ++ Repeat (String LF "") (Z.to_nat height) ++ helpView).

(** ** The columns chosen by the flags *)

Module Flags.
Record flags : Type := mk {
  flagConnStatus : bool;
  flagProtocol : bool;
  flagShowAddresses : bool;
  flagFullConnection : bool;
  flagOwner : bool;
  flagName : bool;
  flagPID : bool;
  flagDirectory : bool;
  flagListeningOnly : bool;
  flagShowClosed : bool;
  flagReadOnly : bool;
  flagPortFilter : list string;
  cmdArgs : list string
}.
End Flags.
Abbreviation flags := Flags.flags.

Definition columnEqb (a b : Column) : bool :=
  (Column.Title a =? Column.Title b) && (Column.Width a =? Column.Width b)%Z.

(** The map [columnSettings] of [main], as its key/value pairs. *)
Definition columnSettings (f : flags) : list (Column * bool) :=
  [(Column.mk "PID" 5, Flags.flagPID f);
   (Column.mk "Name" 10, Flags.flagName f);
   (Column.mk "Directory" 16, Flags.flagDirectory f);
   (Column.mk "Owner" 8, Flags.flagOwner f);
   (Column.mk "Protocol" 3, Flags.flagProtocol f);
   (Column.mk "Address" 15,
    Flags.flagShowAddresses f && negb (Flags.flagFullConnection f));
   (Column.mk "Port" 5, negb (Flags.flagFullConnection f));
   (Column.mk "Local Address" 15, Flags.flagFullConnection f);
   (Column.mk "Local Port" 5, Flags.flagFullConnection f);
   (Column.mk "Remote Address" 15, Flags.flagFullConnection f);
   (Column.mk "Remote Port" 5, Flags.flagFullConnection f);
   (Column.mk "Status" 11, Flags.flagConnStatus f)].

(** [m[key]] on a map: the zero value [false] for a missing key. *)
Fixpoint mapLookup (m : list (Column * bool)) (key : Column) : bool :=
  match m with
  | [] => false
  | (k, v) :: rest => if columnEqb k key then v else mapLookup rest key
  end.

Definition columnIndexes : list Column :=
  [Column.mk "PID" 5; Column.mk "Name" 10; Column.mk "Directory" 16;
   Column.mk "Owner" 8; Column.mk "Protocol" 3; Column.mk "Address" 15;
   Column.mk "Port" 5; Column.mk "Local Address" 15; Column.mk "Local Port" 5;
   Column.mk "Remote Address" 15; Column.mk "Remote Port" 5;
   Column.mk "Status" 11].

(** The loop [for i := 0; i < len(columnSettings); i++], with [remaining]
    iterations left from index [i]. *)
Fixpoint selectColumns (f : flags) (remaining i : nat) (columns : list Column)
    : result (list Column) :=
  match remaining with
  | O => Ok columns
  | S k =>
      colName <- index columnIndexes i ;;
      let enableColumn := mapLookup (columnSettings f) colName in
      selectColumns f k (S i)
        (if enableColumn then (columns ++ [colName])%list else columns)
  end.

(** The settings [main] builds from the flags. *)
Definition mainSettings (f : flags) : result settings :=
  columns <- selectColumns f (List.length (columnSettings f)) O [] ;;
  Ok (Settings.mk (Flags.flagReadOnly f) (Flags.flagShowClosed f)
        (Flags.flagListeningOnly f) (Flags.flagDirectory f) columns
        (Flags.flagPortFilter f) (Flags.cmdArgs f)).

(** The titles of the columns of a settings value. *)
Definition titles (s : settings) : list string :=
  map Column.Title (Settings.columns s).

(** ** Reading aids for the statements *)

(** A world in which every command succeeds and prints nothing. *)
Definition quietWorld : world :=
  World.mk ("", None) (fun _ => ("", None)) (fun _ => None).

(** No filter, no flag, no column. *)
Definition noFilters : settings :=
  Settings.mk false false false false [] [] [].

Definition withPorts (ports : list string) : settings :=
  Settings.mk false false false false [] ports [].

(** Every block of a list of process blocks, the first of which has index
    [processIndex], is parsed without failure and gives no process. *)
Fixpoint everyBlockDropped (w : world) (options : settings)
    (processIndex : nat) (separated : list string) : Prop :=
  match separated with
  | [] => True
  | processString :: rest =>
      parseProcess w options processIndex processString = Ok None
      /\ everyBlockDropped w options (S processIndex) rest
  end.

(** The port filter accepts a connection: its local or its remote port is in
    the allow-list. *)
Definition portAllowed (options : settings) (c : connection) : Prop :=
  In (Connection.localPort c) (Settings.portFilter options)
  \/ In (Connection.remotePort c) (Settings.portFilter options).

(** No address line was read into the connection. *)
Definition noAddress (c : connection) : Prop :=
  Connection.localAddress c = "" /\ Connection.localPort c = ""
  /\ Connection.remoteAddress c = "" /\ Connection.remotePort c = "".

(** A connection still valid either passed the port filter or has read no
    address line. *)
Definition portChecked (options : settings) (st : connection * bool) : Prop :=
  snd st = true -> portAllowed options (fst st) \/ noAddress (fst st).

(** The number of rows of the processes before index [i]. *)
Definition rowsBefore (processes : list process) (i : nat) : Z :=
  Z.of_nat (list_sum (map (fun p => List.length (Process.connections p))
                        (firstn i processes))).

(** The rows at which the blocks of [processes] start when [base] rows
    precede them. *)
Fixpoint blockStarts (base : nat) (processes : list process) : list Z :=
  match processes with
  | [] => []
  | proc :: rest =>
      Z.of_nat base
      :: blockStarts (base + List.length (Process.connections proc)) rest
  end.

(** Following the specification (the Process whose row block contains the
    cursor row): the index of the last block that starts at or before
    [cursor], scanning [rowStarts] from block [i] on. *)
Fixpoint rowBlockOwner (rowStarts : list Z) (cursor : Z) (i : nat)
    (owner : option nat) : option nat :=
  match rowStarts with
  | [] => owner
  | start :: rest =>
      if (start <=? cursor)%Z then rowBlockOwner rest cursor (S i) (Some i)
      else owner
  end.

(** Raw lsof text used in the statements below. *)
Definition sshRaw : string :=
  lines ["p123"; "cbash"; "Lally"; "ftcp"; "PTCP";
         "n127.0.0.1:22->10.0.0.5:5555"; "TST=ESTABLISHED"].

Definition closedRaw : string :=
  lines ["p1"; "cnginx"; "Lroot"; "f6"; "PTCP"; "n*:80"; "TST=CLOSED"].


Definition noPortRaw : string :=
  lines ["p1"; "cbash"; "Lally"; "f3"; "PTCP"; "n127.0.0.1"].

Definition noAddressRaw : string :=
  lines ["p1"; "cbash"; "Lally"; "f3"; "PTCP"].

(** Two processes: the first holds two connections, the second one. *)
Definition webConnection (port : string) : connection :=
  Connection.mk "TCP" "LISTEN" "" "" port "*".

Definition twoProcesses : list process :=
  [Process.mk 10 "nginx" "" [webConnection "80"; webConnection "443"] "root";
   Process.mk 20 "sshd" "" [webConnection "22"] "root"].

Definition twoProcessesModel (cursor : Z) (readOnly : bool) : model :=
  Model.mk (Table.mk cursor [[]; []; []]) [0; 2] twoProcesses None
    (Settings.mk readOnly false false false [] [] []) keys
    (HelpModel.mk 0 false).

(** The values of a list of optional values, in order. *)
Fixpoint keepSome {A : Type} (rs : list (option A)) : list A :=
  match rs with
  | [] => []
  | Some a :: rest => a :: keepSome rest
  | None :: rest => keepSome rest
  end.

(** The connections of a list of parsed segments that are still valid, in
    order. *)
Fixpoint keepValid (rs : list (connection * bool)) : list connection :=
  match rs with
  | [] => []
  | (c, true) :: rest => c :: keepValid rest
  | (_, false) :: rest => keepValid rest
  end.

(** [rs] are the results of [parseProcess] on the blocks [separated], the
    first of which has index [processIndex]: every block was parsed without
    failure. *)
Fixpoint blocksParsed (w : world) (options : settings) (processIndex : nat)
    (separated : list string) (rs : list (option process)) : Prop :=
  match separated, rs with
  | [], [] => True
  | processString :: rest, r :: rs' =>
      parseProcess w options processIndex processString = Ok r
      /\ blocksParsed w options (S processIndex) rest rs'
  | _, _ => False
  end.

(** The rows of the connections [conns] of [proc], the first of which has
    index [connIndex]. *)
Fixpoint rowsFrom (options : settings) (proc : process) (connIndex : nat)
    (conns : list connection) : list Row :=
  match conns with
  | [] => []
  | conn :: rest =>
      map (cell proc connIndex conn) (Settings.columns options)
      :: rowsFrom options proc (S connIndex) rest
  end.

(** The model after the messages [msgs] were handled one after the other,
    as the bubbletea runtime hands them to [Update]. *)
Definition run (SetRows : Table.Model -> list Row -> Table.Model)
    (tableUpdate : Table.Model -> Msg -> Table.Model * option Cmd)
    (m : model) (msgs : list Msg) : model :=
  fold_left (fun m msg => fst (Update SetRows tableUpdate m msg)) msgs m.

(** A [processesMsg] that [checkProcesses] returned for the settings
    [settingsInfo], in some state of the machine; any other message. *)
Definition fromPipeline (settingsInfo : settings) (msg : Msg) : Prop :=
  match msg with
  | processesMsg _ _ _ => exists w, checkProcesses w settingsInfo = Ok msg
  | _ => True
  end.

(** The row-block starts of the model are those of its processes, and every
    process has a connection. *)
Definition consistentSnapshot (m : model) : Prop :=
  Model.rowStarts m = blockStarts O (Model.processes m)
  /\ Forall (fun p => (1 <= List.length (Process.connections p))%nat)
       (Model.processes m).

(** A table widget for the examples: [SetRows] replaces the rows and keeps
    the cursor, [Update] ignores the message. *)
Definition setRowsKeepCursor (t : Table.Model) (rows : list Row) : Table.Model :=
  Table.mk (Table.cursor t) rows.
Definition tableIgnores (t : Table.Model) (msg : Msg)
    : Table.Model * option Cmd := (t, None).

(** The model [main] starts from, for given settings. *)
Definition initialModel (s : settings) : model :=
  Model.mk (Table.mk 0 []) [] [] None s keys (HelpModel.mk 0 false).

(** A world whose [lsof -i] prints [sshRaw]. *)
Definition sshWorld : world :=
  World.mk (sshRaw, None) (fun _ => ("", None)) (fun _ => None).

(** The first byte of [s] is [c]. *)
Definition startsWith (c : ascii) (s : string) : bool :=
  match s with
  | EmptyString => false
  | String d _ => Ascii.eqb d c
  end.

(** [s] holds no byte [c]. *)
Definition without (c : ascii) (s : string) : Prop :=
  Contains s (String c "") = false.

(** No occurrence of [sep] starts inside [a] when [sep] follows [a]: the
    first occurrence of [sep] in [a ++ sep ++ b] is the one after [a]. *)
Fixpoint noEarlierMatch (sep a : string) : bool :=
  match a with
  | EmptyString => true
  | String _ a' => negb (prefix sep (a ++ sep)) && noEarlierMatch sep a'
  end.

(** The marker of the working-directory entry in the output of
    [lsof -p PID -F n]. *)
Definition cwdMarker : string := "fcwd" ++ String LF "n".

(** ** The text lsof prints for a list of processes

    The format [parseLsof] reads, written out: one line per field, a
    process starting with its [p] line and a connection with its [f]
    line. *)

(** The [n] field of a connection: [local:port], followed by
    [->remote:port] unless both remote fields are empty. *)
Definition renderAddress (c : connection) : string :=
  Connection.localAddress c ++ ":" ++ Connection.localPort c
  ++ (if (Connection.remoteAddress c =? "") && (Connection.remotePort c =? "")
      then ""
      else "->" ++ Connection.remoteAddress c ++ ":" ++ Connection.remotePort c).

(** The lines of a connection, the first without its [f] tag. *)
Definition connectionLines (fd : string) (c : connection) : list string :=
  [fd; "P" ++ Connection.protocol c; "n" ++ renderAddress c;
   "TST=" ++ Connection.status c].

(** The first line of a group of lines gets the tag [c]. *)
Definition tagFirst (c : ascii) (g : list string) : list string :=
  match g with
  | [] => []
  | x :: more => String c x :: more
  end.

(** The lines of a process, the first without its [p] tag. *)
Definition processLines (pidText : Z -> string) (fd : string) (p : process)
    : list string :=
  List.app
    [pidText (Process.id p); "c" ++ Process.name p; "L" ++ Process.username p]
    (flat_map (fun c => tagFirst "f" (connectionLines fd c))
       (Process.connections p)).

Definition lsofText (pidText : Z -> string) (fd : string)
    (ps : list process) : string :=
  lines (flat_map (fun p => tagFirst "p" (processLines pidText fd p)) ps).

(** An address or a port without newline, colon or hyphen. *)
Definition plainField (s : string) : Prop :=
  without LF s /\ without ":" s /\ without "-" s.

Definition wellFormedConnection (c : connection) : Prop :=
  without LF (Connection.protocol c)
  /\ without LF (Connection.status c)
  /\ Connection.status c <> "CLOSED"
  /\ plainField (Connection.localAddress c)
  /\ plainField (Connection.localPort c)
  /\ plainField (Connection.remoteAddress c)
  /\ plainField (Connection.remotePort c)
  /\ renderAddress c <> "*:*".

Definition wellFormedProcess (pidText : Z -> string) (p : process) : Prop :=
  Atoi (pidText (Process.id p)) = Ok (Process.id p)
  /\ without LF (pidText (Process.id p))
  /\ without LF (Process.name p)
  /\ without LF (Process.username p)
  /\ Process.directory p = ""
  /\ Forall wellFormedConnection (Process.connections p).

(** A file-descriptor line that is no field of a connection. *)
Definition plainDescriptor (fd : string) : Prop :=
  without LF fd
  /\ startsWith "P" fd = false /\ startsWith "n" fd = false
  /\ startsWith "T" fd = false.

(** The connection passes the port allow-list and the listen-only flag. *)
Definition passesFilters (options : settings) (c : connection) : bool :=
  match Settings.portFilter options with
  | [] => true
  | _ => slicesContains (Settings.portFilter options) (Connection.localPort c)
         || slicesContains (Settings.portFilter options) (Connection.remotePort c)
  end
  && negb (Settings.listenOnly options
           && negb (Connection.status c =? "LISTEN")).

(** The process a printed process is expected to give: none when its name
    is outside a non-empty allow-list or when none of its connections
    passes the filters, else the process with the connections that pass. *)
Definition expectedProcess (options : settings) (p : process)
    : option process :=
  if match Settings.nameFilter options with
     | [] => true
     | _ => slicesContains (Settings.nameFilter options) (Process.name p)
     end
  then match filter (passesFilters options) (Process.connections p) with
       | [] => None
       | cs => Some (Process.mk (Process.id p) (Process.name p)
                       (Process.directory p) cs (Process.username p))
       end
  else None.

Definition expectedSnapshot (options : settings) (ps : list process)
    : list process :=
  keepSome (map (expectedProcess options) ps).

(** Settings under which no filter is active. *)
Definition nothingFiltered (options : settings) : Prop :=
  Settings.nameFilter options = [] /\ Settings.portFilter options = []
  /\ Settings.listenOnly options = false.

(** ** Lemmas on the primitives *)

Lemma append_nil_r (s : string) : s ++ "" = s.
Proof. induction s as [|c s IH]; simpl; [reflexivity | now rewrite IH]. Qed.

Lemma append_assoc_char (cur : string) (c : ascii) (s : string) :
  (cur ++ String c "") ++ s = cur ++ String c s.
Proof. induction cur as [|d cur IH]; simpl; [reflexivity | now rewrite IH]. Qed.

Lemma slicesContains_In (l : list string) (x : string) :
  slicesContains l x = true <-> In x l.
Proof.
  unfold slicesContains. rewrite existsb_exists. split.
  - intros [y [Hin Heq]]. apply String.eqb_eq in Heq. now subst.
  - intros Hin. exists x. split; [assumption | apply String.eqb_refl].
Qed.

Lemma splitFrom_nonempty (sep : string) (s : string) :
  forall skip cur, (1 <= List.length (splitFrom sep skip cur s))%nat.
Proof.
  induction s as [|c s IH]; intros skip cur; cbn [splitFrom].
  - simpl. lia.
  - destruct skip as [|k].
    + destruct (prefix sep (String c s)); [simpl; lia | apply IH].
    + apply IH.
Qed.

(** Without an occurrence of the separator the text is the only piece. *)
Lemma splitFrom_absent (sep : string) (s : string) :
  forall cur, Contains s sep = false -> splitFrom sep O cur s = [cur ++ s].
Proof.
  induction s as [|c s IH]; intros cur H; cbn [splitFrom Contains] in *.
  - now rewrite append_nil_r.
  - apply orb_false_iff in H. destruct H as [Hp Hc].
    rewrite Hp, IH by assumption.
    now rewrite append_assoc_char.
Qed.

Lemma Split_absent (s sep : string) :
  Contains s sep = false -> Split s sep = [s].
Proof. intros H. unfold Split. now rewrite splitFrom_absent. Qed.

(** With an occurrence of a non-empty separator there are at least two
    pieces. *)
Lemma splitFrom_present (sep : string) (s : string) :
  sep <> "" ->
  forall cur, Contains s sep = true ->
              (2 <= List.length (splitFrom sep O cur s))%nat.
Proof.
  intros Hsep. induction s as [|c s IH]; intros cur H;
    cbn [splitFrom Contains] in *.
  - destruct sep; [congruence | discriminate].
  - destruct (prefix sep (String c s)) eqn:Hp.
    + pose proof (splitFrom_nonempty sep s (Nat.pred (String.length sep)) "").
      simpl. lia.
    + simpl in H. apply IH. assumption.
Qed.

Lemma Split_present (s sep : string) :
  sep <> "" -> Contains s sep = true ->
  exists a b rest, Split s sep = a :: b :: rest.
Proof.
  intros Hsep H. pose proof (splitFrom_present sep s Hsep "" H) as Hlen.
  unfold Split. destruct (splitFrom sep O "" s) as [|a [|b rest]];
    simpl in Hlen; try lia. now exists a, b, rest.
Qed.

(** ** The status field *)

(** What the [TST=] line does to the validity flag, for every state and
    every setting of the two flags. *)
Lemma parseStatus_TST (options : settings) (state : string)
    (tmpConnection : connection) (valid : bool) :
  parseProperty options (tmpConnection, valid) ("TST=" ++ state)
  = Ok (Connection.setStatus state tmpConnection,
        if Settings.listenOnly options && negb (state =? "LISTEN") then false
        else if (state =? "CLOSED") && Settings.showClosed options then false
        else valid).
Proof.
  simpl. unfold parseStatus. simpl.
  destruct (state =? "CLOSED"), (Settings.showClosed options),
    (Settings.listenOnly options), (state =? "LISTEN"); reflexivity.
Qed.

(** C1: the status line sets [status] and listen-only invalidates every
    state but LISTEN, but the closed-state rule is inverted: with "show
    closed" disabled a CLOSED connection stays valid, and with "show closed"
    enabled it is invalidated. *)
Theorem closed_rule_inverted :
  (forall ro gc cols pf nf c v,
      parseProperty (Settings.mk ro false false gc cols pf nf) (c, v) "TST=CLOSED"
      = Ok (Connection.setStatus "CLOSED" c, v))
  /\ (forall ro lo gc cols pf nf c v,
      parseProperty (Settings.mk ro true lo gc cols pf nf) (c, v) "TST=CLOSED"
      = Ok (Connection.setStatus "CLOSED" c, false))
  /\ parseLsof quietWorld closedRaw noFilters
     = Ok [Process.mk 1 "nginx" ""
             [Connection.mk "TCP" "CLOSED" "" "" "80" "*"] "root"].
Proof.
  split; [| split].
  - intros. reflexivity.
  - intros. destruct lo; reflexivity.
  - vm_compute. reflexivity.
Qed.

(** ** The collection pipeline *)

(** C2: an exit status of lsof, whichever it is, is rendered [exit status N],
    never [1], so every failed run gives the empty [processesMsg]; only an
    error whose text is exactly [1] is reported. *)
Theorem exit_status_reported_as_empty :
  (forall code out lsof_p kill settingsInfo,
      checkProcesses (World.mk (out, Some (ExitError code)) lsof_p kill) settingsInfo
      = Ok (processesMsg [] [] []))
  /\ (forall out lsof_p kill settingsInfo,
      checkProcesses (World.mk (out, Some (OtherError "1")) lsof_p kill) settingsInfo
      = Ok (errMsg (OtherError "1"))).
Proof. split; intros; reflexivity. Qed.

(** ** The working-directory lookup *)

(** Whenever the lookup succeeds and its output lacks the marker, the index
    [cwdSplit[1]] is out of range. *)
Lemma getCwd_marker_absent (w : world) (pid : Z) (out : string) :
  World.lsof_p w (Itoa pid) = (out, None) ->
  Contains out ("fcwd" ++ String LF "n") = false ->
  getCwd w pid = Panic IndexOutOfRange.
Proof.
  intros Hout Habsent. unfold getCwd. rewrite Hout.
  rewrite Split_absent by assumption. reflexivity.
Qed.

(** C5: on an output without the marker, here the empty output and an
    output that lists only the root directory, [getCwd] stops with an
    index-out-of-range panic instead of returning the empty string. *)
Theorem getCwd_panics_without_marker :
  (forall lsof kill pid,
      getCwd (World.mk lsof (fun _ => ("", None)) kill) pid
      = Panic IndexOutOfRange)
  /\ (forall lsof kill pid,
      getCwd (World.mk lsof (fun _ => (lines ["p77"; "frtd"; "n/"], None)) kill) pid
      = Panic IndexOutOfRange).
Proof.
  split; intros; (eapply getCwd_marker_absent; [reflexivity | reflexivity]).
Qed.

(** ** The terminate key *)

(** The scan returns the process at index [cursor]: the row-block starts are
    not read. *)
Lemma terminateScan_index (cursor : Z) (rest : list process) :
  forall i, (i <= cursor)%Z ->
    terminateScan cursor i rest
    = option_map (fun p => TerminateProcess (Process.id p))
        (nth_error rest (Z.to_nat (cursor - i))).
Proof.
  induction rest as [|p rest IH]; intros i Hi; simpl.
  - now destruct (Z.to_nat (cursor - i)).
  - destruct (i >=? cursor)%Z eqn:Hge.
    + apply Z.geb_le in Hge. replace (cursor - i)%Z with 0%Z by lia.
      reflexivity.
    + rewrite Z.geb_leb in Hge. apply Z.leb_gt in Hge.
      rewrite IH by lia.
      replace (Z.to_nat (cursor - i)) with (S (Z.to_nat (cursor - (i + 1))))
        by lia.
      reflexivity.
Qed.

(** C3: with the cursor on row 1, a row of the first process (its block
    starts at row 0, the next block at row 2), the terminate key issues the
    termination of the second process. *)
Theorem terminate_takes_cursor_as_index :
  forall SetRows tableUpdate,
    snd (fst (formatLsof twoProcesses noFilters)) = [0; 2]%Z
    /\ rowBlockOwner [0; 2]%Z 1 O None = Some O
    /\ Update SetRows tableUpdate (twoProcessesModel 1 false) (KeyMsg "t")
       = (twoProcessesModel 1 false, Some (TerminateProcess 20)).
Proof. intros. repeat split. Qed.

(** C4: with read-only mode set, the terminate key still issues the
    termination of the first process when the cursor is on row 0. *)
Theorem read_only_still_terminates :
  forall SetRows tableUpdate rows rowStarts p rest err sc lo gc cols pf nf help,
    let m := Model.mk (Table.mk 0 rows) rowStarts (p :: rest) err
               (Settings.mk true sc lo gc cols pf nf) keys help in
    Update SetRows tableUpdate m (KeyMsg "t")
    = (m, Some (TerminateProcess (Process.id p))).
Proof. intros. reflexivity. Qed.

(** ** Processes without a valid connection *)

(** Inversion of a successful [bind]. *)
Lemma bind_Ok {A B : Type} (r : result A) (k : A -> result B) (b : B) :
  bind r k = Ok b -> exists a, r = Ok a /\ k a = Ok b.
Proof. destruct r; simpl; intros H; try discriminate. now exists a. Qed.

Ltac invert_bind H :=
  let a := fresh "a" in
  let Ha := fresh "Ha" in
  apply bind_Ok in H; destruct H as [a [Ha H]].

Lemma parseProcess_connections (w : world) (options : settings)
    (processIndex : nat) (processString : string) (p : process) :
  parseProcess w options processIndex processString = Ok (Some p) ->
  exists segments,
    parseConnections options segments [] = Ok (Process.connections p)
    /\ (1 <= List.length (Process.connections p))%nat.
Proof.
  unfold parseProcess. intros H.
  do 7 invert_bind H.
  destruct (negb (0 <? List.length (Settings.nameFilter options))%nat
            || slicesContains (Settings.nameFilter options) a5);
    [| discriminate].
  do 4 invert_bind H.
  destruct (0 <? List.length a9)%nat eqn:Hlen; [| discriminate].
  injection H as <-. simpl. exists a8. split; [assumption|].
  apply Nat.ltb_lt in Hlen. lia.
Qed.

(** The loop over the blocks only appends processes that [parseProcess]
    returned. *)
Lemma parseBlocks_Forall (P : process -> Prop) (w : world) (options : settings)
    (separated : list string) :
  (forall i b p, parseProcess w options i b = Ok (Some p) -> P p) ->
  forall processIndex allProcesses ps,
    Forall P allProcesses ->
    parseBlocks w options processIndex separated allProcesses = Ok ps ->
    Forall P ps.
Proof.
  intros HP. induction separated as [|b rest IH];
    intros processIndex allProcesses ps Hall H; simpl in H.
  - now injection H as <-.
  - invert_bind H. eapply IH; [| exact H].
    destruct a as [p|]; [| assumption].
    apply Forall_app. split; [assumption|].
    constructor; [| constructor]. eapply HP; eassumption.
Qed.

(** C9: every process of a snapshot returned by [parseLsof] has at least one
    connection. *)
Theorem parsed_processes_have_connections (w : world) (raw : string)
    (options : settings) (ps : list process) :
  parseLsof w raw options = Ok ps ->
  Forall (fun p => (1 <= List.length (Process.connections p))%nat) ps.
Proof.
  unfold parseLsof. apply parseBlocks_Forall; [| constructor].
  intros i b p H. apply parseProcess_connections in H.
  destruct H as [_ [_ H]]. exact H.
Qed.

Lemma parsed_processes_have_connections_witness :
  parseLsof quietWorld sshRaw noFilters
  = Ok [Process.mk 123 "bash" ""
          [Connection.mk "TCP" "ESTABLISHED" "5555" "10.0.0.5" "22" "127.0.0.1"]
          "ally"]
  /\ Forall (fun p => (1 <= List.length (Process.connections p))%nat)
       [Process.mk 123 "bash" ""
          [Connection.mk "TCP" "ESTABLISHED" "5555" "10.0.0.5" "22" "127.0.0.1"]
          "ally"].
Proof.
  split.
  - vm_compute. reflexivity.
  - apply (parsed_processes_have_connections quietWorld sshRaw noFilters).
    vm_compute. reflexivity.
Defined.

(** ** Row-block starts *)

Lemma formatConnections_length (options : settings) (proc : process)
    (conns : list connection) :
  forall connIndex rows,
    List.length (formatConnections options proc connIndex conns rows)
    = (List.length rows + List.length conns)%nat.
Proof.
  induction conns as [|conn rest IH]; intros connIndex rows; simpl.
  - lia.
  - rewrite IH, length_app. simpl. lia.
Qed.

Lemma formatProcesses_spec (options : settings) (processes : list process) :
  forall rows rowStarts,
    snd (formatProcesses options processes rows rowStarts)
    = (rowStarts ++ blockStarts (List.length rows) processes)%list
    /\ List.length (fst (formatProcesses options processes rows rowStarts))
       = (List.length rows
          + list_sum (map (fun p => List.length (Process.connections p))
                        processes))%nat.
Proof.
  induction processes as [|proc rest IH]; intros rows rowStarts; simpl.
  - rewrite app_nil_r. split; [reflexivity | lia].
  - destruct (IH (formatConnections options proc O (Process.connections proc) rows)
                (rowStarts ++ [Z.of_nat (List.length rows)])%list) as [Hs Hr].
    rewrite Hs, Hr, formatConnections_length, <- app_assoc. simpl.
    split; [reflexivity | lia].
Qed.

Lemma blockStarts_length (processes : list process) :
  forall base, List.length (blockStarts base processes) = List.length processes.
Proof.
  induction processes as [|proc rest IH]; intros base; simpl;
    [reflexivity | now rewrite IH].
Qed.

Lemma blockStarts_nth (processes : list process) :
  forall base i, (i < List.length processes)%nat ->
    nth_error (blockStarts base processes) i
    = Some (Z.of_nat base + rowsBefore processes i)%Z.
Proof.
  unfold rowsBefore.
  induction processes as [|proc rest IH]; intros base i Hi; simpl in Hi.
  - lia.
  - destruct i as [|i]; simpl.
    + f_equal. lia.
    + rewrite IH by lia. f_equal. lia.
Qed.

Lemma rowsBefore_step (processes : list process) :
  forall i p, nth_error processes i = Some p ->
    rowsBefore processes (S i)
    = (rowsBefore processes i
       + Z.of_nat (List.length (Process.connections p)))%Z.
Proof.
  unfold rowsBefore.
  induction processes as [|proc rest IH]; intros i p Hp.
  - destruct i; discriminate.
  - destruct i as [|i].
    + injection Hp as <-. simpl. lia.
    + simpl in Hp. specialize (IH i p Hp).
      change (firstn (S (S i)) (proc :: rest))
        with (proc :: firstn (S i) rest).
      change (firstn (S i) (proc :: rest)) with (proc :: firstn i rest).
      simpl map. simpl list_sum. simpl in IH. lia.
Qed.

(** With a connection in every process, later blocks start strictly
    later. *)
Lemma rowsBefore_increasing (processes : list process) :
  Forall (fun p => (1 <= List.length (Process.connections p))%nat) processes ->
  forall j i, (i < j)%nat -> (j < List.length processes)%nat ->
    (rowsBefore processes i < rowsBefore processes j)%Z.
Proof.
  intros Hall. induction j as [|j IH]; intros i Hij Hj; [lia|].
  destruct (nth_error processes j) as [p|] eqn:Hp.
  - rewrite (rowsBefore_step processes j p Hp).
    assert (Hin : In p processes) by (eapply nth_error_In; eassumption).
    rewrite Forall_forall in Hall. specialize (Hall p Hin).
    destruct (Nat.eq_dec i j) as [->|Hne]; [lia|].
    specialize (IH i ltac:(lia) ltac:(lia)). lia.
  - apply nth_error_None in Hp. lia.
Qed.

(** C10: [formatLsof] returns one block start per process, the start of
    block [i] is the number of rows of the processes before [i] (one row per
    connection), and the starts are strictly increasing when every process
    has a connection. *)
Theorem row_block_starts (processes : list process) (options : settings) :
  Forall (fun p => (1 <= List.length (Process.connections p))%nat) processes ->
  let rows := fst (fst (formatLsof processes options)) in
  let rowStarts := snd (fst (formatLsof processes options)) in
  List.length rowStarts = List.length processes
  /\ Z.of_nat (List.length rows) = rowsBefore processes (List.length processes)
  /\ (forall i, (i < List.length processes)%nat ->
                nth_error rowStarts i = Some (rowsBefore processes i))
  /\ (forall i j a b, (i < j)%nat ->
                      nth_error rowStarts i = Some a ->
                      nth_error rowStarts j = Some b -> (a < b)%Z).
Proof.
  intros Hall. unfold formatLsof.
  destruct (formatProcesses_spec options processes [] []) as [Hs Hr].
  destruct (formatProcesses options processes [] []) as [rows rowStarts].
  simpl in *. subst rowStarts.
  assert (Hnth : forall i, (i < List.length processes)%nat ->
            nth_error (blockStarts 0 processes) i
            = Some (rowsBefore processes i)).
  { intros i Hi. rewrite blockStarts_nth by assumption. f_equal. }
  repeat split.
  - apply blockStarts_length.
  - rewrite Hr. unfold rowsBefore. now rewrite firstn_all.
  - exact Hnth.
  - intros i j a b Hij Ha Hb.
    assert (Hj : (j < List.length processes)%nat).
    { rewrite <- (blockStarts_length processes 0%nat).
      apply nth_error_Some. congruence. }
    rewrite Hnth in Ha, Hb by lia.
    injection Ha as <-. injection Hb as <-.
    now apply rowsBefore_increasing.
Qed.

Lemma row_block_starts_witness :
  snd (fst (formatLsof twoProcesses noFilters)) = [0; 2]%Z
  /\ (forall i j a b, (i < j)%nat ->
        nth_error (snd (fst (formatLsof twoProcesses noFilters))) i = Some a ->
        nth_error (snd (fst (formatLsof twoProcesses noFilters))) j = Some b ->
        (a < b)%Z).
Proof.
  split.
  - reflexivity.
  - apply (row_block_starts twoProcesses noFilters).
    repeat constructor.
Defined.

(** ** Text without a process *)

(** The processes collected so far are never removed. *)
Lemma parseBlocks_grows (w : world) (options : settings)
    (separated : list string) :
  forall processIndex allProcesses ps,
    parseBlocks w options processIndex separated allProcesses = Ok ps ->
    (List.length allProcesses <= List.length ps)%nat.
Proof.
  induction separated as [|b rest IH]; intros processIndex allProcesses ps H;
    simpl in H.
  - injection H as <-. lia.
  - invert_bind H. apply IH in H.
    destruct a; [rewrite length_app in H; simpl in H |]; lia.
Qed.


(** A block is dropped for one of two reasons: its command name is outside
    a non-empty name allow-list, or none of its connection segments gave a
    valid connection. *)
Lemma parseProcess_dropped (w : world) (options : settings)
    (processIndex : nat) (processString : string) :
  parseProcess w options processIndex processString = Ok None ->
  (exists header second cmd,
      index (Split processString (String LF "f")) 0 = Ok header
      /\ index (Split header (String LF "")) 1 = Ok second
      /\ strFrom 1 second = Ok cmd
      /\ Settings.nameFilter options <> []
      /\ ~ In cmd (Settings.nameFilter options))
  \/ (exists segments,
      sliceFrom1 (Split processString (String LF "f")) = Ok segments
      /\ parseConnections options segments [] = Ok []).
Proof.
  unfold parseProcess. intros H.
  do 7 invert_bind H.
  destruct (negb (0 <? List.length (Settings.nameFilter options))%nat
            || slicesContains (Settings.nameFilter options) a5) eqn:Hname.
  - right. do 4 invert_bind H. exists a8. split; [assumption |].
    destruct a9 as [|c cs]; [assumption | discriminate].
  - left. apply orb_false_iff in Hname. destruct Hname as [Hlen Hin].
    exists a, a4, a5. repeat split; try assumption.
    + intros Hnil. rewrite Hnil in Hlen. discriminate.
    + intros Hc. apply slicesContains_In in Hc. congruence.
Qed.



(** The empty snapshot is returned for no other text. *)
Lemma empty_snapshot_only_from_dropped_blocks (w : world) (options : settings)
    (separated : list string) :
  forall processIndex allProcesses,
    parseBlocks w options processIndex separated allProcesses = Ok [] ->
    everyBlockDropped w options processIndex separated.
Proof.
  induction separated as [|b rest IH]; intros processIndex allProcesses H;
    simpl in *.
  - exact I.
  - invert_bind H. destruct a as [p|].
    + apply parseBlocks_grows in H. rewrite length_app in H. simpl in H. lia.
    + split; [assumption | eapply IH; eassumption].
Qed.

(** The empty string is one block without a PID line: slicing off its
    first byte fails, whatever the filters. *)
Lemma empty_text_every_configuration (w : world) (options : settings) :
  parseLsof w "" options = Panic SliceBoundsOutOfRange.
Proof. reflexivity. Qed.


(** ** The address field *)

Lemma index_0 {A : Type} (a : A) (l : list A) : index (a :: l) 0 = Ok a.
Proof. reflexivity. Qed.

Lemma index_1 {A : Type} (a b : A) (l : list A) : index (a :: b :: l) 1 = Ok b.
Proof. reflexivity. Qed.

(** What the address handler does to a field without an arrow. *)
Lemma parseAddress_local (options : settings) (address la lp : string)
    (more : list string) (tmpConnection : connection) (valid : bool) :
  address <> "*:*" ->
  Contains address "->" = false ->
  Split address ":" = la :: lp :: more ->
  parseAddress options address tmpConnection valid
  = Ok (Connection.setLocalPort lp (Connection.setLocalAddress la tmpConnection),
        if (0 <? List.length (Settings.portFilter options))%nat
        then if negb (slicesContains (Settings.portFilter options) lp
                      || slicesContains (Settings.portFilter options)
                           (Connection.remotePort tmpConnection))
             then false else valid
        else valid).
Proof.
  intros Hsentinel Harrow Hsplit. unfold parseAddress.
  apply String.eqb_neq in Hsentinel. rewrite Hsentinel.
  rewrite (Split_absent address "->" Harrow). simpl List.length.
  change (1 <? 1)%nat with false. cbv iota.
  rewrite index_0. cbn [bind]. rewrite Hsplit, index_0, index_1. cbn [bind].
  simpl Connection.localPort. simpl Connection.remotePort.
  destruct (0 <? List.length (Settings.portFilter options))%nat; [| reflexivity].
  destruct (negb _); reflexivity.
Qed.

(** C7, as amended: an address field without the arrow, other than the
    sentinel, that holds a [:] is read as local-only without failure:
    [localAddress] is the text before the first [:], [localPort] the text
    after it (up to a second [:], if any), and the remote fields keep their
    values, empty in a fresh connection. *)
Theorem local_only_address (options : settings) (address : string)
    (tmpConnection : connection) (valid : bool) :
  address <> "*:*" ->
  Contains address "->" = false ->
  Contains address ":" = true ->
  exists la lp more valid',
    Split address ":" = la :: lp :: more
    /\ parseProperty options (tmpConnection, valid) (String "n" address)
       = Ok (Connection.mk (Connection.protocol tmpConnection)
               (Connection.status tmpConnection)
               (Connection.remotePort tmpConnection)
               (Connection.remoteAddress tmpConnection) lp la, valid').
Proof.
  intros Hsentinel Harrow Hcolon.
  destruct (Split_present address ":" ltac:(discriminate) Hcolon)
    as [la [lp [more Hsplit]]].
  exists la, lp, more. eexists. split; [exact Hsplit |].
  cbn [parseProperty]. change (Ascii.eqb "n" "P") with false.
  change (Ascii.eqb "n" "n") with true. cbv iota.
  rewrite (parseAddress_local options address la lp more) by assumption.
  reflexivity.
Qed.

Lemma local_only_address_witness :
  exists la lp more valid',
    Split "127.0.0.1:22" ":" = la :: lp :: more
    /\ parseProperty noFilters (Connection.zero, true) "n127.0.0.1:22"
       = Ok (Connection.mk "" "" "" "" lp la, valid').
Proof.
  apply (local_only_address noFilters "127.0.0.1:22" Connection.zero true).
  - discriminate.
  - reflexivity.
  - reflexivity.
Defined.

Lemma address_without_port_panics :
  parseLsof quietWorld noPortRaw noFilters = Panic IndexOutOfRange.
Proof. vm_compute. reflexivity. Qed.

(** ** The port filter *)

Section PortFilter.

Variable options : settings.
Hypothesis filtering : Settings.portFilter options <> [].

Lemma filtering_length :
  (0 <? List.length (Settings.portFilter options))%nat = true.
Proof.
  destruct (Settings.portFilter options); [congruence | reflexivity].
Qed.

Lemma parseAddress_portChecked (address : string) (tmpConnection : connection)
    (valid : bool) (st : connection * bool) :
  parseAddress options address tmpConnection valid = Ok st -> portChecked options st.
Proof.
  unfold parseAddress, portChecked. intros H.
  destruct (address =? "*:*").
  - injection H as <-. discriminate.
  - invert_bind H. rewrite filtering_length in H.
    destruct (slicesContains (Settings.portFilter options)
                (Connection.localPort a)) eqn:Hl;
      [| destruct (slicesContains (Settings.portFilter options)
                     (Connection.remotePort a)) eqn:Hr];
      simpl in H; injection H as <-; simpl; intros Hv;
      try discriminate; left.
    + left. now apply slicesContains_In.
    + right. now apply slicesContains_In.
Qed.

Lemma parseStatus_portChecked (line : string) (tmpConnection : connection)
    (valid : bool) (st : connection * bool) :
  portChecked options (tmpConnection, valid) ->
  parseStatus options line tmpConnection valid = Ok st -> portChecked options st.
Proof.
  unfold parseStatus, portChecked. intros Hinv H.
  invert_bind H. destruct (a =? "TST=").
  - invert_bind H. injection H as <-. simpl in *. intros Hv.
    assert (Hvalid : valid = true).
    { destruct ((a0 =? "CLOSED") && Settings.showClosed options);
        destruct (Settings.listenOnly options && negb (a0 =? "LISTEN"));
        congruence. }
    exact (Hinv Hvalid).
  - injection H as <-. exact Hinv.
Qed.

Lemma parseProperty_portChecked (st st' : connection * bool) (line : string) :
  portChecked options st -> parseProperty options st line = Ok st' -> portChecked options st'.
Proof.
  intros Hinv H. destruct st as [tmpConnection valid].
  unfold parseProperty in H. destruct line as [|tag rest].
  - now injection H as <-.
  - destruct (Ascii.eqb tag "P").
    + injection H as <-. exact Hinv.
    + destruct (Ascii.eqb tag "n").
      * eapply parseAddress_portChecked; eassumption.
      * destruct (Ascii.eqb tag "T").
        -- eapply parseStatus_portChecked; eassumption.
        -- now injection H as <-.
Qed.

Lemma parseProperties_portChecked (connectionInfo : list string) :
  forall st st', portChecked options st ->
    parseProperties options connectionInfo st = Ok st' -> portChecked options st'.
Proof.
  induction connectionInfo as [|line rest IH]; intros st st' Hinv H;
    simpl in H.
  - now injection H as <-.
  - invert_bind H. eapply IH; [| exact H].
    eapply parseProperty_portChecked; eassumption.
Qed.

Lemma parseConnections_portChecked (segments : list string) :
  forall allConnections cs,
    Forall (fun c => portAllowed options c \/ noAddress c) allConnections ->
    parseConnections options segments allConnections = Ok cs ->
    Forall (fun c => portAllowed options c \/ noAddress c) cs.
Proof.
  induction segments as [|seg rest IH]; intros allConnections cs Hall H;
    simpl in H.
  - now injection H as <-.
  - invert_bind H. destruct a as [tmpConnection valid].
    eapply IH; [| exact H].
    destruct valid; [| assumption].
    apply Forall_app. split; [assumption |].
    constructor; [| constructor].
    assert (Hinit : portChecked options (Connection.zero, true))
      by (intros _; right; repeat split).
    exact (parseProperties_portChecked _ _ _ Hinit Ha eq_refl).
Qed.

End PortFilter.

(** With an empty allow-list the address handler leaves the validity flag
    of every address but the sentinel as it was. *)
Lemma parseAddress_no_filter (options : settings) (address : string)
    (tmpConnection : connection) (valid : bool) (st : connection * bool) :
  Settings.portFilter options = [] ->
  address <> "*:*" ->
  parseAddress options address tmpConnection valid = Ok st ->
  snd st = valid.
Proof.
  unfold parseAddress. intros Hempty Hsentinel H.
  apply String.eqb_neq in Hsentinel. rewrite Hsentinel, Hempty in H.
  invert_bind H. simpl in H. now injection H as <-.
Qed.

(** C8, as amended: with a non-empty allow-list every connection of the
    snapshot has its local or its remote port in the list, or was read from
    a segment without an address line (its four address fields are empty);
    with an empty allow-list the address line of a connection never clears
    its validity flag, the sentinel apart. *)
Theorem port_filter_on_address_lines :
  (forall w raw options ps,
      Settings.portFilter options <> [] ->
      parseLsof w raw options = Ok ps ->
      Forall (fun p => Forall (fun c => portAllowed options c \/ noAddress c)
                         (Process.connections p)) ps)
  /\ (forall options address tmpConnection valid st,
      Settings.portFilter options = [] ->
      address <> "*:*" ->
      parseProperty options (tmpConnection, valid) (String "n" address) = Ok st ->
      snd st = valid).
Proof.
  split.
  - intros w raw options ps Hfilter. unfold parseLsof.
    apply parseBlocks_Forall; [| constructor].
    intros i b p H. apply parseProcess_connections in H.
    destruct H as [segments [H _]].
    eapply parseConnections_portChecked; [exact Hfilter | constructor | exact H].
  - intros options address tmpConnection valid st Hempty Hsentinel H.
    change (parseAddress options address tmpConnection valid = Ok st) in H.
    eapply parseAddress_no_filter; eassumption.
Qed.

Lemma port_filter_on_address_lines_witness :
  Forall (fun p => Forall (fun c => portAllowed (withPorts ["22"]) c \/ noAddress c)
                     (Process.connections p))
    [Process.mk 123 "bash" ""
       [Connection.mk "TCP" "ESTABLISHED" "5555" "10.0.0.5" "22" "127.0.0.1"]
       "ally"]
  /\ parseProperty noFilters (Connection.zero, true) "n127.0.0.1:9999"
     = Ok (Connection.mk "" "" "" "" "9999" "127.0.0.1", true)
  /\ snd (Connection.mk "" "" "" "" "9999" "127.0.0.1", true) = true.
Proof.
  split; [| split].
  - apply (proj1 port_filter_on_address_lines quietWorld sshRaw (withPorts ["22"])).
    + discriminate.
    + vm_compute. reflexivity.
  - reflexivity.
  - apply (proj2 port_filter_on_address_lines noFilters "127.0.0.1:9999"
             Connection.zero true).
    + reflexivity.
    + discriminate.
    + reflexivity.
Defined.

Lemma connection_without_address_passes_port_filter :
  exists p c,
    parseLsof quietWorld noAddressRaw (withPorts ["80"]) = Ok [p]
    /\ In c (Process.connections p)
    /\ ~ In (Connection.localPort c) ["80"]
    /\ ~ In (Connection.remotePort c) ["80"].
Proof.
  exists (Process.mk 1 "bash" "" [Connection.mk "TCP" "" "" "" "" ""] "ally"),
         (Connection.mk "TCP" "" "" "" "" "").
  split; [vm_compute; reflexivity |].
  split; [left; reflexivity |].
  split; simpl; intros [H | []]; discriminate.
Qed.

(** ** What a returned snapshot is made of *)

(** Everything [parseProcess] read to build a process. *)
Lemma parseProcess_Some (w : world) (options : settings) (processIndex : nat)
    (processString : string) (p : process) :
  parseProcess w options processIndex processString = Ok (Some p) ->
  exists header first pidText second third segments,
    index (Split processString (String LF "f")) 0 = Ok header
    /\ index (Split header (String LF "")) 0 = Ok first
    /\ (if (processIndex =? 0)%nat then strFrom 1 first else Ok first) = Ok pidText
    /\ Atoi pidText = Ok (Process.id p)
    /\ (if Settings.getCwd options then getCwd w (Process.id p) else Ok "")
       = Ok (Process.directory p)
    /\ index (Split header (String LF "")) 1 = Ok second
    /\ strFrom 1 second = Ok (Process.name p)
    /\ (Settings.nameFilter options = []
        \/ In (Process.name p) (Settings.nameFilter options))
    /\ index (Split header (String LF "")) 2 = Ok third
    /\ strFrom 1 third = Ok (Process.username p)
    /\ sliceFrom1 (Split processString (String LF "f")) = Ok segments
    /\ parseConnections options segments [] = Ok (Process.connections p).
Proof.
  unfold parseProcess. intros H.
  do 7 invert_bind H.
  destruct (negb (0 <? List.length (Settings.nameFilter options))%nat
            || slicesContains (Settings.nameFilter options) a5) eqn:Hname;
    [| discriminate].
  do 4 invert_bind H.
  destruct (0 <? List.length a9)%nat; [| discriminate].
  injection H as <-. simpl.
  exists a, a0, a1, a4, a6, a8. repeat split; try assumption.
  apply orb_true_iff in Hname. destruct Hname as [Hlen | Hin].
  - left. destruct (Settings.nameFilter options); [reflexivity | discriminate].
  - right. now apply slicesContains_In.
Qed.

(** X1: with a non-empty name allow-list every process of the snapshot has
    its name in the list. *)
Theorem name_filter_allow_list (w : world) (raw : string) (options : settings)
    (ps : list process) :
  Settings.nameFilter options <> [] ->
  parseLsof w raw options = Ok ps ->
  Forall (fun p => In (Process.name p) (Settings.nameFilter options)) ps.
Proof.
  intros Hfilter. unfold parseLsof. apply parseBlocks_Forall; [| constructor].
  intros i b p H. apply parseProcess_Some in H.
  destruct H as (header & first & pidText & second & third & segments & H).
  destruct H as (_ & _ & _ & _ & _ & _ & _ & [Hnil | Hin] & _);
    [contradiction | exact Hin].
Qed.

Lemma name_filter_allow_list_witness :
  Forall (fun p => In (Process.name p) ["bash"; "sshd"])
    [Process.mk 123 "bash" ""
       [Connection.mk "TCP" "ESTABLISHED" "5555" "10.0.0.5" "22" "127.0.0.1"]
       "ally"].
Proof.
  apply (name_filter_allow_list quietWorld sshRaw
           (Settings.mk false false false false [] [] ["bash"; "sshd"])).
  - discriminate.
  - vm_compute. reflexivity.
Defined.

(** X2: the directory of a process of the snapshot is empty when the
    working-directory lookup is disabled, and is what [getCwd] returns for
    its id when the lookup is enabled. *)
Theorem directory_follows_getCwd (w : world) (raw : string) (options : settings)
    (ps : list process) :
  parseLsof w raw options = Ok ps ->
  Forall (fun p =>
            if Settings.getCwd options
            then getCwd w (Process.id p) = Ok (Process.directory p)
            else Process.directory p = "") ps.
Proof.
  unfold parseLsof. apply parseBlocks_Forall; [| constructor].
  intros i b p H. apply parseProcess_Some in H.
  destruct H as (header & first & pidText & second & third & segments & H).
  destruct H as (_ & _ & _ & _ & Hcwd & _).
  destruct (Settings.getCwd options); [exact Hcwd | now injection Hcwd].
Qed.

Lemma directory_follows_getCwd_witness :
  Forall (fun p => getCwd
                     (World.mk ("", None)
                        (fun _ => (lines ["p123"; "fcwd"; "n/home/ally"; "frtd"; "n/"], None))
                        (fun _ => None)) (Process.id p)
                   = Ok (Process.directory p))
    [Process.mk 123 "bash" "/home/ally"
       [Connection.mk "TCP" "ESTABLISHED" "5555" "10.0.0.5" "22" "127.0.0.1"]
       "ally"].
Proof.
  apply (directory_follows_getCwd
           (World.mk ("", None)
              (fun _ => (lines ["p123"; "fcwd"; "n/home/ally"; "frtd"; "n/"], None))
              (fun _ => None))
           sshRaw (Settings.mk false false false true [] [] [])).
  vm_compute. reflexivity.
Defined.

(** The loop over the blocks returns the processes of the blocks, in the
    order of the blocks, after the processes it started from. *)
Lemma parseBlocks_spec (w : world) (options : settings)
    (separated : list string) :
  forall processIndex allProcesses ps,
    parseBlocks w options processIndex separated allProcesses = Ok ps <->
    exists rs, blocksParsed w options processIndex separated rs
               /\ ps = (allProcesses ++ keepSome rs)%list.
Proof.
  induction separated as [|b rest IH]; intros processIndex allProcesses ps;
    simpl.
  - split.
    + intros H. injection H as <-. exists []. now rewrite app_nil_r.
    + intros [[|r rs] [Hrs ->]]; [| contradiction].
      simpl. now rewrite app_nil_r.
  - split.
    + intros H. invert_bind H. apply IH in H. destruct H as [rs [Hrs ->]].
      exists (a :: rs). split; [now split |].
      destruct a; simpl; [now rewrite <- app_assoc | reflexivity].
    + intros [[|r rs] [Hrs ->]]; [contradiction |].
      destruct Hrs as [Hb Hrs]. rewrite Hb. simpl. apply IH.
      exists rs. split; [assumption |].
      destruct r; simpl; [now rewrite <- app_assoc | reflexivity].
Qed.

(** X3: a snapshot is returned exactly when every block of the text is
    parsed without failure, and it holds the processes of the blocks that
    gave one, in the order of the blocks: no block is skipped on a failure
    and none is reordered. *)
Theorem snapshot_is_surviving_blocks (w : world) (raw : string)
    (options : settings) (ps : list process) :
  parseLsof w raw options = Ok ps <->
  exists rs, blocksParsed w options O (Split raw (String LF "p")) rs
             /\ ps = keepSome rs.
Proof. unfold parseLsof. now rewrite parseBlocks_spec. Qed.

Lemma snapshot_is_surviving_blocks_witness :
  exists rs,
    blocksParsed quietWorld noFilters O
      (Split (lines ["p1"; "cidle"; "Lroot"; "p123"; "cbash"; "Lally"; "ftcp";
                     "PTCP"; "n127.0.0.1:22->10.0.0.5:5555"; "TST=ESTABLISHED"])
         (String LF "p")) rs
    /\ [Process.mk 123 "bash" ""
          [Connection.mk "TCP" "ESTABLISHED" "5555" "10.0.0.5" "22" "127.0.0.1"]
          "ally"] = keepSome rs.
Proof.
  apply (proj1 (snapshot_is_surviving_blocks quietWorld _ noFilters _)).
  vm_compute. reflexivity.
Defined.

(** ** The validity flag of a connection *)

Lemma parseProperties_invariant (options : settings)
    (I : connection * bool -> Prop) :
  (forall st st' line,
      I st -> parseProperty options st line = Ok st' -> I st') ->
  forall connectionInfo st st',
    I st -> parseProperties options connectionInfo st = Ok st' -> I st'.
Proof.
  intros Hstep. induction connectionInfo as [|line rest IH];
    intros st st' Hinv H; simpl in H.
  - now injection H as <-.
  - invert_bind H. eapply IH; [| exact H]. eapply Hstep; eassumption.
Qed.

Lemma parseConnections_Forall (options : settings) (Q : connection -> Prop)
    (segments : list string) :
  (forall seg c, parseConnection options seg = Ok (c, true) -> Q c) ->
  forall allConnections cs,
    Forall Q allConnections ->
    parseConnections options segments allConnections = Ok cs ->
    Forall Q cs.
Proof.
  intros HQ. induction segments as [|seg rest IH];
    intros allConnections cs Hall H; simpl in H.
  - now injection H as <-.
  - invert_bind H. destruct a as [tmpConnection valid].
    eapply IH; [| exact H]. destruct valid; [| assumption].
    apply Forall_app. split; [assumption |].
    constructor; [| constructor]. now apply (HQ seg).
Qed.

(** What each kind of line does to the two components of the state. *)
Lemma parseAddress_keeps (options : settings) (address : string)
    (tmpConnection c : connection) (valid v : bool) :
  parseAddress options address tmpConnection valid = Ok (c, v) ->
  Connection.status c = Connection.status tmpConnection
  /\ Connection.protocol c = Connection.protocol tmpConnection
  /\ (v = true -> valid = true /\ address <> "*:*").
Proof.
  unfold parseAddress. intros H.
  destruct (address =? "*:*") eqn:Hs.
  - injection H as <- <-. repeat split; discriminate.
  - apply String.eqb_neq in Hs. invert_bind H.
    assert (Hc : Connection.status a = Connection.status tmpConnection
                 /\ Connection.protocol a = Connection.protocol tmpConnection).
    { destruct (1 <? List.length (Split address "->"))%nat.
      - do 6 invert_bind Ha. injection Ha as <-. now split.
      - do 3 invert_bind Ha. injection Ha as <-. now split. }
    destruct Hc as [Hst Hpr].
    destruct (0 <? List.length (Settings.portFilter options))%nat;
      [destruct (negb _) |]; injection H as <- <-;
      repeat split; try assumption; discriminate.
Qed.

Lemma parseStatus_keeps (options : settings) (line : string)
    (tmpConnection c : connection) (valid v : bool) :
  parseStatus options line tmpConnection valid = Ok (c, v) ->
  (v = true -> valid = true)
  /\ (Connection.status c = Connection.status tmpConnection
      \/ (Settings.listenOnly options = true -> v = true ->
          Connection.status c = "LISTEN")).
Proof.
  unfold parseStatus. intros H. invert_bind H.
  destruct (a =? "TST=").
  - invert_bind H. injection H as <- <-. split.
    + destruct ((a0 =? "CLOSED") && Settings.showClosed options);
        destruct (Settings.listenOnly options && negb (a0 =? "LISTEN"));
        congruence.
    + right. intros Hl Hv. rewrite Hl in Hv. simpl in *.
      destruct (a0 =? "LISTEN") eqn:Heq.
      * now apply String.eqb_eq in Heq.
      * simpl in Hv. discriminate.
  - injection H as <- <-. split; [trivial | now left].
Qed.

(** Once cleared, the validity flag stays cleared. *)
Lemma parseProperty_valid_decreases (options : settings)
    (st st' : connection * bool) (line : string) :
  parseProperty options st line = Ok st' -> snd st' = true -> snd st = true.
Proof.
  destruct st as [tmpConnection valid], st' as [c v]. unfold parseProperty.
  destruct line as [|tag rest]; [intros H; now injection H as <- <- |].
  destruct (Ascii.eqb tag "P"); [intros H; now injection H as <- <- |].
  destruct (Ascii.eqb tag "n").
  - intros H Hv. apply parseAddress_keeps in H. now apply H.
  - destruct (Ascii.eqb tag "T").
    + intros H Hv. apply parseStatus_keeps in H. now apply H.
    + intros H. now injection H as <- <-.
Qed.

(** X4: a segment that holds the line [n*:*] never gives a valid
    connection, whatever its other lines and whatever the filters. *)
Theorem sentinel_invalidates (options : settings) (connectionString : string)
    (c : connection) (valid : bool) :
  In "n*:*" (Split connectionString (String LF "")) ->
  parseConnection options connectionString = Ok (c, valid) ->
  valid = false.
Proof.
  unfold parseConnection.
  generalize (Connection.zero, true).
  induction (Split connectionString (String LF "")) as [|line rest IH];
    intros st Hin H; simpl in H; [contradiction |].
  invert_bind H. destruct Hin as [-> | Hin].
  - destruct st as [tmpConnection v0]. simpl in Ha. injection Ha as <-.
    apply (parseProperties_invariant options (fun st => snd st = false))
      in H; [exact H | | reflexivity].
    intros st st' line Hst Hstep. destruct (snd st') eqn:Hv; [| reflexivity].
    apply parseProperty_valid_decreases in Hstep; congruence.
  - now apply (IH a).
Qed.

Lemma sentinel_invalidates_witness :
  In "n*:*" (Split (lines ["7"; "PUDP"; "n*:*"; "TST=LISTEN"]) (String LF ""))
  /\ parseConnection noFilters (lines ["7"; "PUDP"; "n*:*"; "TST=LISTEN"])
     = Ok (Connection.mk "UDP" "LISTEN" "" "" "" "", false)
  /\ false = false.
Proof.
  assert (Hin : In "n*:*" (Split (lines ["7"; "PUDP"; "n*:*"; "TST=LISTEN"])
                             (String LF ""))).
  { vm_compute. right. right. left. reflexivity. }
  assert (Hparse : parseConnection noFilters
                     (lines ["7"; "PUDP"; "n*:*"; "TST=LISTEN"])
                   = Ok (Connection.mk "UDP" "LISTEN" "" "" "" "", false)).
  { vm_compute. reflexivity. }
  split; [exact Hin | split; [exact Hparse |]].
  exact (sentinel_invalidates noFilters _ _ false Hin Hparse).
Defined.

(** X5: with listen-only set, every connection of the snapshot has the
    status LISTEN, or the empty status of a segment without a state line. *)
Theorem listen_only_statuses (w : world) (raw : string) (options : settings)
    (ps : list process) :
  Settings.listenOnly options = true ->
  parseLsof w raw options = Ok ps ->
  Forall (fun p => Forall (fun c => Connection.status c = "LISTEN"
                                    \/ Connection.status c = "")
                     (Process.connections p)) ps.
Proof.
  intros Hlisten. unfold parseLsof. apply parseBlocks_Forall; [| constructor].
  intros i b p H. apply parseProcess_connections in H.
  destruct H as [segments [H _]].
  eapply parseConnections_Forall; [| constructor | exact H].
  intros seg c Hseg. unfold parseConnection in Hseg.
  refine (parseProperties_invariant options
            (fun st => snd st = true ->
                       Connection.status (fst st) = "LISTEN"
                       \/ Connection.status (fst st) = "")
            _ _ _ (c, true) _ Hseg eq_refl); [| now right].
  intros [tmpConnection valid] [c' v'] line Hinv Hstep Hv. simpl in *.
  unfold parseProperty in Hstep.
  destruct line as [|tag rest]; [injection Hstep as <- <-; now apply Hinv |].
  destruct (Ascii.eqb tag "P");
    [injection Hstep as <- <-; now apply Hinv |].
  destruct (Ascii.eqb tag "n").
  - apply parseAddress_keeps in Hstep. destruct Hstep as (Hst & _ & Hvalid).
    rewrite Hst. apply Hinv. now apply Hvalid.
  - destruct (Ascii.eqb tag "T").
    + apply parseStatus_keeps in Hstep. destruct Hstep as [Hvalid [Hst | Hl]].
      * rewrite Hst. apply Hinv. now apply Hvalid.
      * left. now apply Hl.
    + injection Hstep as <- <-. now apply Hinv.
Qed.

Lemma listen_only_statuses_witness :
  Forall (fun p => Forall (fun c => Connection.status c = "LISTEN"
                                    \/ Connection.status c = "")
                     (Process.connections p))
    [Process.mk 1 "nginx" "" [Connection.mk "TCP" "LISTEN" "" "" "80" "*"] "root"].
Proof.
  apply (listen_only_statuses quietWorld
           (lines ["p1"; "cnginx"; "Lroot"; "f6"; "PTCP"; "n*:80"; "TST=LISTEN";
                   "f7"; "PTCP"; "n10.0.0.1:80->10.0.0.9:4000";
                   "TST=ESTABLISHED"])
           (Settings.mk false false true false [] [] [])).
  - reflexivity.
  - vm_compute. reflexivity.
Defined.

(** ** Where the errors of a parse come from *)

Lemma bind_Err {A B : Type} (r : result A) (k : A -> result B) (e : error) :
  bind r k = Err e -> r = Err e \/ exists a, r = Ok a /\ k a = Err e.
Proof.
  destruct r; simpl; intros H; try discriminate.
  - right. now exists a.
  - left. now injection H as <-.
Qed.

Ltac invert_bind_err H :=
  let a := fresh "a" in
  let Ha := fresh "Ha" in
  apply bind_Err in H; destruct H as [H | [a [Ha H]]].

Lemma index_no_error {A : Type} (l : list A) (i : nat) (e : error) :
  index l i <> Err e.
Proof. unfold index. destruct (nth_error l i); discriminate. Qed.

Lemma strFrom_no_error (n : nat) (s : string) (e : error) :
  strFrom n s <> Err e.
Proof.
  revert s. induction n as [|n IH]; intros s; simpl; [discriminate |].
  destruct s; [discriminate | apply IH].
Qed.

Lemma strTo_no_error (n : nat) (s : string) (e : error) :
  strTo n s <> Err e.
Proof.
  revert s. induction n as [|n IH]; intros s; simpl; [discriminate |].
  destruct s; [discriminate |]. intros H. invert_bind_err H.
  - now apply IH in H.
  - discriminate.
Qed.

Lemma sliceFrom1_no_error {A : Type} (l : list A) (e : error) :
  sliceFrom1 l <> Err e.
Proof. destruct l; discriminate. Qed.

Lemma parseAddress_no_error (options : settings) (address : string)
    (tmpConnection : connection) (valid : bool) (e : error) :
  parseAddress options address tmpConnection valid <> Err e.
Proof.
  unfold parseAddress. intros H.
  destruct (address =? "*:*"); [discriminate |].
  invert_bind_err H.
  - destruct (1 <? List.length (Split address "->"))%nat.
    + repeat (invert_bind_err H; [now apply index_no_error in H |]).
      discriminate.
    + repeat (invert_bind_err H; [now apply index_no_error in H |]).
      discriminate.
  - destruct (0 <? List.length (Settings.portFilter options))%nat;
      [destruct (negb _) |]; discriminate.
Qed.

Lemma parseProperty_no_error (options : settings) (st : connection * bool)
    (line : string) (e : error) :
  parseProperty options st line <> Err e.
Proof.
  destruct st as [tmpConnection valid]. unfold parseProperty.
  destruct line as [|tag rest]; [discriminate |].
  destruct (Ascii.eqb tag "P"); [discriminate |].
  destruct (Ascii.eqb tag "n"); [apply parseAddress_no_error |].
  destruct (Ascii.eqb tag "T"); [| discriminate].
  unfold parseStatus. intros H. invert_bind_err H.
  - now apply strTo_no_error in H.
  - destruct (a =? "TST="); [| discriminate].
    invert_bind_err H; [now apply strFrom_no_error in H | discriminate].
Qed.

Lemma parseProperties_no_error (options : settings)
    (connectionInfo : list string) (e : error) :
  forall st, parseProperties options connectionInfo st <> Err e.
Proof.
  induction connectionInfo as [|line rest IH]; intros st H; simpl in H.
  - discriminate.
  - invert_bind_err H.
    + now apply parseProperty_no_error in H.
    + now apply IH in H.
Qed.

Lemma parseConnections_no_error (options : settings) (segments : list string)
    (e : error) :
  forall allConnections,
    parseConnections options segments allConnections <> Err e.
Proof.
  induction segments as [|seg rest IH]; intros allConnections H; simpl in H.
  - discriminate.
  - invert_bind_err H.
    + now apply parseProperties_no_error in H.
    + destruct a as [tmpConnection valid]. now apply IH in H.
Qed.

Lemma Atoi_error (s : string) (e : error) :
  Atoi s = Err e ->
  e = NumError "Atoi" s ErrSyntax \/ e = NumError "Atoi" s ErrRange.
Proof.
  unfold Atoi. intros H.
  destruct (snd _); [injection H as <-; now left |].
  destruct (digits 0 _); [| injection H as <-; now left].
  destruct (_ && _); [discriminate | injection H as <-; now right].
Qed.

Lemma getCwd_error (w : world) (pid : Z) (e : error) :
  getCwd w pid = Err e ->
  exists out, World.lsof_p w (Itoa pid) = (out, Some e).
Proof.
  unfold getCwd. intros H.
  destruct (World.lsof_p w (Itoa pid)) as [out [err|]].
  - injection H as <-. now exists out.
  - destruct (_ <? _)%nat; [discriminate |].
    invert_bind_err H; now apply index_no_error in H.
Qed.

Lemma parseProcess_error (w : world) (options : settings) (processIndex : nat)
    (processString : string) (e : error) :
  parseProcess w options processIndex processString = Err e ->
  (exists num, e = NumError "Atoi" num ErrSyntax
               \/ e = NumError "Atoi" num ErrRange)
  \/ (Settings.getCwd options = true
      /\ exists pid out, World.lsof_p w (Itoa pid) = (out, Some e)).
Proof.
  unfold parseProcess. intros H.
  invert_bind_err H; [now apply index_no_error in H |].
  invert_bind_err H; [now apply index_no_error in H |].
  invert_bind_err H.
  { destruct (processIndex =? 0)%nat;
      [now apply strFrom_no_error in H | discriminate]. }
  invert_bind_err H.
  { left. exists a1. now apply Atoi_error. }
  invert_bind_err H.
  { destruct (Settings.getCwd options) eqn:Hcwd; [| discriminate].
    right. split; [reflexivity |]. exists a2. now apply getCwd_error. }
  invert_bind_err H; [now apply index_no_error in H |].
  invert_bind_err H; [now apply strFrom_no_error in H |].
  destruct (_ || _); [| discriminate].
  invert_bind_err H; [now apply index_no_error in H |].
  invert_bind_err H; [now apply strFrom_no_error in H |].
  invert_bind_err H; [now apply sliceFrom1_no_error in H |].
  invert_bind_err H; [now apply parseConnections_no_error in H |].
  destruct (_ <? _)%nat; discriminate.
Qed.

(** X6: an error returned by [parseLsof] is the error of [strconv.Atoi] on
    a PID line or, when the working-directory lookup is enabled, the error
    of its command: the connection lines never give an error. *)
Theorem parse_errors (w : world) (raw : string) (options : settings)
    (e : error) :
  parseLsof w raw options = Err e ->
  (exists num, e = NumError "Atoi" num ErrSyntax
               \/ e = NumError "Atoi" num ErrRange)
  \/ (Settings.getCwd options = true
      /\ exists pid out, World.lsof_p w (Itoa pid) = (out, Some e)).
Proof.
  unfold parseLsof. generalize (@nil process), O.
  induction (Split raw (String LF "p")) as [|b rest IH];
    intros allProcesses processIndex H; simpl in H; [discriminate |].
  invert_bind_err H.
  - now apply parseProcess_error in H.
  - now apply IH in H.
Qed.

Lemma parse_errors_witness :
  (exists num, NumError "Atoi" "12x" ErrSyntax = NumError "Atoi" num ErrSyntax
               \/ NumError "Atoi" "12x" ErrSyntax = NumError "Atoi" num ErrRange)
  \/ (Settings.getCwd noFilters = true
      /\ exists pid out,
        World.lsof_p quietWorld (Itoa pid)
        = (out, Some (NumError "Atoi" "12x" ErrSyntax))).
Proof.
  apply (parse_errors quietWorld
           (lines ["p1"; "cidle"; "Lroot"; "p12x"; "cbash"; "Lally"])
           noFilters).
  vm_compute. reflexivity.
Defined.

(** ** The rows of a snapshot *)

Lemma formatConnections_rows (options : settings) (proc : process)
    (conns : list connection) :
  forall connIndex rows,
    formatConnections options proc connIndex conns rows
    = (rows ++ rowsFrom options proc connIndex conns)%list.
Proof.
  induction conns as [|conn rest IH]; intros connIndex rows; simpl.
  - now rewrite app_nil_r.
  - rewrite IH, <- app_assoc. reflexivity.
Qed.

Lemma formatProcesses_rows (options : settings) (processes : list process) :
  forall rows rowStarts,
    fst (formatProcesses options processes rows rowStarts)
    = (rows ++ List.concat (map (fun p => rowsFrom options p O (Process.connections p))
                         processes))%list.
Proof.
  induction processes as [|proc rest IH]; intros rows rowStarts; simpl.
  - now rewrite app_nil_r.
  - rewrite IH, formatConnections_rows, <- app_assoc. reflexivity.
Qed.

Lemma rowsFrom_length (options : settings) (proc : process)
    (conns : list connection) :
  forall connIndex,
    List.length (rowsFrom options proc connIndex conns) = List.length conns.
Proof.
  induction conns as [|conn rest IH]; intros connIndex; simpl;
    [reflexivity | now rewrite IH].
Qed.

Lemma rowsFrom_nth (options : settings) (proc : process)
    (conns : list connection) :
  forall connIndex k c,
    nth_error conns k = Some c ->
    nth_error (rowsFrom options proc connIndex conns) k
    = Some (map (cell proc (connIndex + k) c) (Settings.columns options)).
Proof.
  induction conns as [|conn rest IH]; intros connIndex k c Hk.
  - destruct k; discriminate.
  - destruct k as [|k]; simpl in *.
    + injection Hk as <-. now rewrite Nat.add_0_r.
    + rewrite (IH (S connIndex) k c Hk). do 3 f_equal. lia.
Qed.

Lemma concat_rows_nth (options : settings) (processes : list process) :
  forall i p k row,
    nth_error processes i = Some p ->
    nth_error (rowsFrom options p O (Process.connections p)) k = Some row ->
    nth_error (List.concat (map (fun p => rowsFrom options p O (Process.connections p))
                         processes))
      (Z.to_nat (rowsBefore processes i) + k)
    = Some row.
Proof.
  unfold rowsBefore.
  induction processes as [|proc rest IH]; intros i p k row Hp Hrow.
  - destruct i; discriminate.
  - destruct i as [|i]; simpl in Hp.
    + injection Hp as ->. simpl. rewrite nth_error_app1; [exact Hrow |].
      apply nth_error_Some. congruence.
    + specialize (IH i p k row Hp Hrow). simpl.
      rewrite nth_error_app2 by (rewrite rowsFrom_length; lia).
      rewrite rowsFrom_length.
      rewrite Nat2Z.id in *.
      replace (List.length (Process.connections proc)
               + list_sum (map (fun p0 => List.length (Process.connections p0))
                             (firstn i rest)) + k
               - List.length (Process.connections proc))%nat
        with (list_sum (map (fun p0 => List.length (Process.connections p0))
                          (firstn i rest)) + k)%nat by lia.
      exact IH.
Qed.

(** X7: the row at offset [k] after the start of block [i] is the row of
    connection [k] of process [i]: one cell per column, computed from that
    process and that connection, the process columns being filled at offset
    0 only. *)
Theorem row_of_connection (processes : list process) (options : settings)
    (i k : nat) (p : process) (c : connection) :
  nth_error processes i = Some p ->
  nth_error (Process.connections p) k = Some c ->
  let rows := fst (fst (formatLsof processes options)) in
  let rowStarts := snd (fst (formatLsof processes options)) in
  exists start,
    nth_error rowStarts i = Some start
    /\ nth_error rows (Z.to_nat start + k)
       = Some (map (cell p k c) (Settings.columns options)).
Proof.
  intros Hp Hc. unfold formatLsof.
  pose proof (formatProcesses_rows options processes [] []) as Hrows.
  destruct (formatProcesses_spec options processes [] []) as [Hstarts _].
  destruct (formatProcesses options processes [] []) as [rows rowStarts].
  simpl in *. subst rows rowStarts.
  exists (rowsBefore processes i). split.
  - rewrite blockStarts_nth; [f_equal |].
    apply nth_error_Some. congruence.
  - apply (concat_rows_nth options processes i p k _ Hp).
    now rewrite (rowsFrom_nth options p _ O k c Hc).
Qed.

Lemma row_of_connection_witness :
  exists start,
    nth_error (snd (fst (formatLsof twoProcesses
                           (Settings.mk false false false false
                              [Column.mk "PID" 5; Column.mk "Port" 5] [] []))))
      0 = Some start
    /\ nth_error (fst (fst (formatLsof twoProcesses
                              (Settings.mk false false false false
                                 [Column.mk "PID" 5; Column.mk "Port" 5] [] []))))
         (Z.to_nat start + 1)
       = Some (map (cell (Process.mk 10 "nginx" ""
                            [webConnection "80"; webConnection "443"] "root")
                      1 (webConnection "443"))
                 [Column.mk "PID" 5; Column.mk "Port" 5]).
Proof.
  apply (row_of_connection twoProcesses
           (Settings.mk false false false false
              [Column.mk "PID" 5; Column.mk "Port" 5] [] [])
           0 1 _ (webConnection "443")).
  - reflexivity.
  - reflexivity.
Defined.

(** X8: every row has exactly one cell per configured column, and there is
    one row per connection. *)
Theorem rows_match_columns (processes : list process) (options : settings) :
  let rows := fst (fst (formatLsof processes options)) in
  Forall (fun row => List.length row = List.length (Settings.columns options)) rows
  /\ List.length rows
     = list_sum (map (fun p => List.length (Process.connections p)) processes).
Proof.
  unfold formatLsof.
  pose proof (formatProcesses_rows options processes [] []) as Hrows.
  destruct (formatProcesses_spec options processes [] []) as [_ Hlen].
  destruct (formatProcesses options processes [] []) as [rows rowStarts].
  simpl in *. split; [| exact Hlen]. subst rows.
  apply Forall_concat. apply Forall_map. apply Forall_forall. intros p _.
  generalize O. induction (Process.connections p) as [|c cs IH]; intros j;
    simpl; constructor; [apply length_map | apply IH].
Qed.

(** ** The controller along a run *)

Section ControllerRuns.

Variable SetRows : Table.Model -> list Row -> Table.Model.
Variable tableUpdate : Table.Model -> Msg -> Table.Model * option Cmd.

Lemma updateTable_frame (m : model) (msg : Msg) :
  let m' := fst (updateTable tableUpdate m msg) in
  Model.rowStarts m' = Model.rowStarts m
  /\ Model.processes m' = Model.processes m
  /\ Model.err m' = Model.err m
  /\ Model.settings m' = Model.settings m
  /\ Model.keys m' = Model.keys m.
Proof.
  unfold updateTable. destruct (tableUpdate (Model.table m) msg).
  simpl. repeat split.
Qed.

(** What one call of [Update] leaves as it was. *)
Lemma Update_frame (m : model) (msg : Msg) :
  let m' := fst (Update SetRows tableUpdate m msg) in
  Model.settings m' = Model.settings m
  /\ Model.keys m' = Model.keys m
  /\ Model.err m' = match msg with
                    | errMsg e => Some e
                    | _ => Model.err m
                    end
  /\ match msg with
     | processesMsg processes _ ends =>
         Model.processes m' = processes /\ Model.rowStarts m' = ends
     | _ =>
         Model.processes m' = Model.processes m
         /\ Model.rowStarts m' = Model.rowStarts m
     end.
Proof.
  unfold Update. destruct msg;
    repeat match goal with
           | |- context [if ?c then _ else _] => destruct c
           end;
    try match goal with
        | |- context [updateTable tableUpdate ?m0 ?msg0] =>
            destruct (updateTable_frame m0 msg0) as (H1 & H2 & H3 & H4 & H5)
        end;
    simpl in *; repeat split; assumption.
Qed.

(** X9: whatever messages arrive, the settings and the keymap of the model
    stay those it started with. *)
Theorem run_keeps_configuration (m : model) (msgs : list Msg) :
  Model.settings (run SetRows tableUpdate m msgs) = Model.settings m
  /\ Model.keys (run SetRows tableUpdate m msgs) = Model.keys m.
Proof.
  unfold run. revert m. induction msgs as [|msg rest IH]; intros m; simpl.
  - now split.
  - destruct (IH (fst (Update SetRows tableUpdate m msg))) as [Hs Hk].
    destruct (Update_frame m msg) as (Hs' & Hk' & _).
    simpl in *. split; congruence.
Qed.

(** X10: the error is sticky: once an error is stored no message clears it,
    a loaded snapshot included; it is only replaced by the error of a later
    [errMsg]. *)
Theorem error_is_sticky (m : model) (msgs : list Msg) (e : error) :
  Model.err m = Some e ->
  exists e', Model.err (run SetRows tableUpdate m msgs) = Some e'
             /\ (e' = e \/ In (errMsg e') msgs).
Proof.
  unfold run. revert m e. induction msgs as [|msg rest IH]; intros m e He;
    simpl.
  - exists e. split; [assumption | now left].
  - destruct (Update_frame m msg) as (_ & _ & Herr & _). simpl in Herr.
    destruct msg as [ps rows ends | err0 | | wd ht | k | ].
    2: { destruct (IH _ err0 Herr) as [e' [H1 [Heq | H2]]];
         exists e'; (split; [assumption |]); right;
         [left; congruence | now right]. }
    all: rewrite He in Herr;
      destruct (IH _ e Herr) as [e' [H1 [Heq | H2]]];
      exists e'; (split; [assumption |]); [now left | right; now right].
Qed.

(** What [checkProcesses] puts into a [processesMsg]. *)
Lemma checkProcesses_snapshot (w : world) (settingsInfo : settings)
    (processes : list process) (rows : list Row) (ends : list Z) :
  checkProcesses w settingsInfo = Ok (processesMsg processes rows ends) ->
  ends = blockStarts O processes
  /\ Forall (fun p => (1 <= List.length (Process.connections p))%nat) processes.
Proof.
  unfold checkProcesses. destruct (getLsof w) as [out [err|]].
  - destruct (negb _); intros H; [| discriminate].
    injection H as <- <- <-. split; [reflexivity | constructor].
  - destruct (parseLsof w out settingsInfo) as [parsed | e | p] eqn:Hparse;
      [| discriminate | discriminate].
    unfold formatLsof.
    destruct (formatProcesses_spec settingsInfo parsed [] []) as [Hstarts _].
    destruct (formatProcesses settingsInfo parsed [] []) as [formatted starts].
    simpl in Hstarts. intros H. injection H as <- <- <-.
    split; [exact Hstarts |].
    unfold parseLsof in Hparse.
    eapply parseBlocks_Forall; [| constructor | exact Hparse].
    intros i b p H. apply parseProcess_connections in H.
    destruct H as [_ [_ H]]. exact H.
Qed.

(** X11: as long as the snapshots delivered to the model are those
    [checkProcesses] returned, the row-block starts of the model are those
    of its processes and every process has a connection, in every state of
    a run. *)
Theorem run_keeps_snapshot_consistent (m : model) (msgs : list Msg) :
  consistentSnapshot m ->
  Forall (fromPipeline (Model.settings m)) msgs ->
  consistentSnapshot (run SetRows tableUpdate m msgs).
Proof.
  unfold run. revert m. induction msgs as [|msg rest IH]; intros m Hm Hmsgs;
    simpl; [assumption |].
  inversion Hmsgs as [|? ? Hmsg Hrest]; subst.
  destruct (Update_frame m msg) as (Hs & _ & _ & Hsnap). simpl in Hs, Hsnap.
  apply IH; [| now rewrite Hs].
  unfold consistentSnapshot in *. destruct msg; simpl in Hmsg;
    try (destruct Hsnap as [-> ->]; exact Hm).
  destruct Hsnap as [-> ->]. destruct Hmsg as [w Hw].
  now apply checkProcesses_snapshot in Hw.
Qed.

Lemma terminateScan_listed (cursor : Z) (rest : list process) :
  forall i,
    terminateScan cursor i rest = None
    \/ exists p, In p rest
                 /\ terminateScan cursor i rest
                    = Some (TerminateProcess (Process.id p)).
Proof.
  induction rest as [|p rest IH]; intros i; simpl; [now left |].
  destruct (i >=? cursor)%Z.
  - right. exists p. split; [now left | reflexivity].
  - destruct (IH (i + 1)%Z) as [Hn | [q [Hq Hc]]]; [now left |].
    right. exists q. split; [now right | assumption].
Qed.

(** X12: the terminate key only ever asks for the termination of a process
    of the current snapshot, leaves the model as it is, and asks for nothing
    when the snapshot is empty. *)
Theorem terminate_targets_listed_process (m : model) :
  Model.keys m = keys ->
  fst (Update SetRows tableUpdate m (KeyMsg "t")) = m
  /\ (snd (Update SetRows tableUpdate m (KeyMsg "t")) = None
      \/ exists p, In p (Model.processes m)
                   /\ snd (Update SetRows tableUpdate m (KeyMsg "t"))
                      = Some (TerminateProcess (Process.id p))).
Proof.
  intros Hkeys. unfold Update. rewrite Hkeys.
  change (Matches "t" (KeyMap.Refresh keys)) with false.
  change (Matches "t" (KeyMap.Terminate keys)) with true. cbv iota.
  destruct (0 <? List.length (Model.processes m))%nat; simpl;
    [| split; [reflexivity | now left]].
  split; [reflexivity |]. apply terminateScan_listed.
Qed.

End ControllerRuns.

Lemma error_is_sticky_witness :
  exists e',
    Model.err (run setRowsKeepCursor tableIgnores
                 (Model.mk (Table.mk 0 []) [] [] (Some (ExitError 1)) noFilters
                    keys (HelpModel.mk 0 false))
                 [processesMsg twoProcesses [[]; []; []] [0; 2]; KeyMsg "r"])
    = Some e'
    /\ (e' = ExitError 1
        \/ In (errMsg e') [processesMsg twoProcesses [[]; []; []] [0; 2]; KeyMsg "r"]).
Proof.
  apply (error_is_sticky setRowsKeepCursor tableIgnores).
  reflexivity.
Defined.

Lemma run_keeps_snapshot_consistent_witness :
  consistentSnapshot
    (run setRowsKeepCursor tableIgnores (initialModel noFilters)
       [KeyMsg "r";
        processesMsg
          [Process.mk 123 "bash" ""
             [Connection.mk "TCP" "ESTABLISHED" "5555" "10.0.0.5" "22" "127.0.0.1"]
             "ally"]
          [[]] [0];
        KeyMsg "down"]).
Proof.
  apply (run_keeps_snapshot_consistent setRowsKeepCursor tableIgnores).
  - split; [reflexivity | constructor].
  - repeat constructor. exists sshWorld. vm_compute. reflexivity.
Defined.

Lemma terminate_targets_listed_process_witness :
  fst (Update setRowsKeepCursor tableIgnores (twoProcessesModel 1 false) (KeyMsg "t"))
  = twoProcessesModel 1 false
  /\ (snd (Update setRowsKeepCursor tableIgnores (twoProcessesModel 1 false)
             (KeyMsg "t")) = None
      \/ exists p, In p (Model.processes (twoProcessesModel 1 false))
                   /\ snd (Update setRowsKeepCursor tableIgnores
                             (twoProcessesModel 1 false) (KeyMsg "t"))
                      = Some (TerminateProcess (Process.id p))).
Proof.
  apply (terminate_targets_listed_process setRowsKeepCursor tableIgnores).
  reflexivity.
Defined.

(** ** The height of the view *)

Lemma countFrom_char_app (c : ascii) (a b : string) :
  countFrom (String c "") O (a ++ b)
  = (countFrom (String c "") O a + countFrom (String c "") O b)%nat.
Proof.
  induction a as [|d a IH]; [reflexivity |].
  change (String d a ++ b) with (String d (a ++ b)).
  cbn [countFrom]. change (Nat.pred (length (String c ""))) with O.
  assert (Hp : forall t, prefix (String c "") (String d t)
                         = if Ascii.ascii_dec c d then true else false).
  { intros t. simpl. destruct (Ascii.ascii_dec c d); [| reflexivity].
    now destruct t. }
  rewrite !Hp. destruct (Ascii.ascii_dec c d); rewrite IH; reflexivity.
Qed.

Lemma Count_char_app (c : ascii) (a b : string) :
  Count (a ++ b) (String c "")
  = (Count a (String c "") + Count b (String c ""))%nat.
Proof. apply countFrom_char_app. Qed.

Lemma Count_Repeat_char (c : ascii) (n : nat) :
  Count (Repeat (String c "") n) (String c "") = n.
Proof.
  induction n as [|n IH]; [reflexivity |].
  change (Repeat (String c "") (S n))
    with (String c "" ++ Repeat (String c "") n).
  rewrite Count_char_app, IH. unfold Count. simpl.
  destruct (Ascii.ascii_dec c c); [reflexivity | congruence].
Qed.

(** X16: whenever [View] returns, its text holds exactly 18 newlines,
    whatever the table, the help and the error show; it returns exactly
    when the table view, the error line and the help view hold at most 17
    newlines together, and stops with the panic of [strings.Repeat]
    otherwise. *)
Theorem view_has_fixed_height (tableView helpView : string) (m : model) :
  let shown :=
    (Count tableView (String LF "") + 1
     + match Model.err m with
       | Some err => Count (Error err) (String LF "") + 1
       | None => 0
       end
     + Count helpView (String LF ""))%nat in
  match View tableView helpView m with
  | Rendered text => (shown <= 17)%nat /\ Count text (String LF "") = 18%nat
  | NegativeRepeatCount => (17 < shown)%nat
  end.
Proof.
  unfold View.
  set (final := match Model.err m with
                | Some err => (tableView ++ String LF "") ++ Error err ++ String LF ""
                | None => tableView ++ String LF ""
                end).
  assert (Hfinal : Count final (String LF "")
                   = (Count tableView (String LF "") + 1
                      + match Model.err m with
                        | Some err => Count (Error err) (String LF "") + 1
                        | None => 0
                        end)%nat).
  { unfold final. destruct (Model.err m) as [err|].
    - rewrite !Count_char_app. change (Count (String LF "") (String LF "")) with 1%nat.
      lia.
    - rewrite Count_char_app. change (Count (String LF "") (String LF "")) with 1%nat.
      lia. }
  cbv zeta. rewrite <- Hfinal.
  destruct (17 - Z.of_nat (Count final (String LF ""))
            - Z.of_nat (Count helpView (String LF "")) <? 0)%Z eqn:Hneg.
  - apply Z.ltb_lt in Hneg. lia.
  - apply Z.ltb_ge in Hneg. split; [lia |].
    rewrite !Count_char_app, Count_Repeat_char.
    change (Count (String LF "") (String LF "")) with 1%nat. lia.
Qed.

(** ** The columns chosen by the flags *)

Ltac all_flags f :=
  destruct f as [f1 f2 f3 f4 f5 f6 f7 f8 f9 f10 f11 ports args];
  destruct f1, f2, f3, f4, f5, f6, f7, f8.

Lemma mainSettings_eq (f : flags) :
  mainSettings f
  = Ok (Settings.mk (Flags.flagReadOnly f) (Flags.flagShowClosed f)
          (Flags.flagListeningOnly f) (Flags.flagDirectory f)
          (filter (mapLookup (columnSettings f)) columnIndexes)
          (Flags.flagPortFilter f) (Flags.cmdArgs f)).
Proof. all_flags f; vm_compute; reflexivity. Qed.

(** X13: for every setting of the flags the columns are selected without
    failure, and they are the columns of [columnIndexes] whose flag is set,
    in the order of [columnIndexes]. *)
Theorem columns_in_fixed_order (f : flags) :
  exists s,
    mainSettings f = Ok s
    /\ Settings.columns s
       = filter (mapLookup (columnSettings f)) columnIndexes.
Proof. eexists. split; [apply mainSettings_eq | reflexivity]. Qed.

(** X14: for every setting of the flags a port is shown: either the
    composite Port column, or the Local Port and Remote Port columns, and
    never both forms. *)
Theorem port_column_always_shown (f : flags) :
  exists s,
    mainSettings f = Ok s
    /\ (if Flags.flagFullConnection f
        then In "Local Port" (titles s) /\ In "Remote Port" (titles s)
             /\ ~ In "Port" (titles s) /\ ~ In "Address" (titles s)
        else In "Port" (titles s)
             /\ ~ In "Local Port" (titles s) /\ ~ In "Remote Port" (titles s)).
Proof.
  eexists. split; [apply mainSettings_eq |].
  all_flags f; cbn [Flags.flagFullConnection];
    rewrite <- !slicesContains_In; vm_compute; repeat split;
    try reflexivity; discriminate.
Qed.

(** X15: the working directory of the processes is looked up exactly when
    the Directory column is shown. *)
Theorem directory_column_iff_lookup (f : flags) :
  exists s,
    mainSettings f = Ok s
    /\ (Settings.getCwd s = true <-> In "Directory" (titles s)).
Proof.
  eexists. split; [apply mainSettings_eq |].
  all_flags f; rewrite <- slicesContains_In; vm_compute; split; intros H;
    (reflexivity || discriminate).
Qed.

(** ** Splitting a text that was joined *)

Lemma prefix_nil (s : string) : prefix "" s = true.
Proof. now destruct s. Qed.

Lemma prefix_cons (c d : ascii) (sep s : string) :
  prefix (String c sep) (String d s) = Ascii.eqb c d && prefix sep s.
Proof.
  simpl. destruct (Ascii.ascii_dec c d) as [-> | Hne].
  - now rewrite Ascii.eqb_refl.
  - apply Ascii.eqb_neq in Hne. now rewrite Hne.
Qed.

Lemma prefix_cons_nil (c : ascii) (sep : string) :
  prefix (String c sep) "" = false.
Proof. reflexivity. Qed.

Lemma Contains_cons (d : ascii) (s sep : string) :
  Contains (String d s) sep = prefix sep (String d s) || Contains s sep.
Proof. reflexivity. Qed.

Lemma without_cons (c d : ascii) (s : string) :
  without c (String d s) <-> d <> c /\ without c s.
Proof.
  unfold without. rewrite Contains_cons, prefix_cons, prefix_nil, andb_true_r.
  rewrite orb_false_iff, Ascii.eqb_neq. split; intros [H1 H2]; split; congruence.
Qed.

Lemma without_app (c : ascii) (a b : string) :
  without c (a ++ b) <-> without c a /\ without c b.
Proof.
  induction a as [|d a IH].
  - simpl. split; [intros H; split; [reflexivity | exact H] | tauto].
  - change (String d a ++ b) with (String d (a ++ b)).
    rewrite !without_cons, IH. tauto.
Qed.

(** A text without the first byte of a separator holds no separator, and
    no separator starts in it when more text follows. *)
Lemma Contains_after (c : ascii) (sep a r : string) :
  without c a ->
  Contains (a ++ r) (String c sep) = Contains r (String c sep).
Proof.
  induction a as [|d a IH]; intros H; [reflexivity |].
  apply without_cons in H. destruct H as [Hd Ha].
  change (String d a ++ r) with (String d (a ++ r)).
  rewrite Contains_cons, prefix_cons, IH by assumption.
  apply not_eq_sym, Ascii.eqb_neq in Hd. now rewrite Hd.
Qed.

Lemma without_Contains (c : ascii) (sep a : string) :
  without c a -> Contains a (String c sep) = false.
Proof.
  intros H. rewrite <- (append_nil_r a).
  rewrite Contains_after by assumption. reflexivity.
Qed.

(** The piece before the first separator, for a separator of one byte. *)
Lemma splitFrom_app_sep1 (c : ascii) (a b : string) :
  without c a ->
  forall cur,
    splitFrom (String c "") O cur (a ++ String c b)
    = (cur ++ a) :: splitFrom (String c "") O "" b.
Proof.
  induction a as [|d a IH]; intros H cur.
  - simpl append at 1. cbn [splitFrom]. rewrite prefix_cons, Ascii.eqb_refl,
      prefix_nil. simpl. now rewrite append_nil_r.
  - apply without_cons in H. destruct H as [Hd Ha].
    change (String d a ++ String c b) with (String d (a ++ String c b)).
    cbn [splitFrom]. rewrite prefix_cons.
    apply not_eq_sym, Ascii.eqb_neq in Hd. rewrite Hd. cbn [andb].
    rewrite IH by assumption. now rewrite append_assoc_char.
Qed.

(** The same for a separator of two different bytes. *)
Lemma splitFrom_app_sep2 (c1 c2 : ascii) (a b : string) :
  c1 <> c2 ->
  Contains a (String c1 (String c2 "")) = false ->
  forall cur,
    splitFrom (String c1 (String c2 "")) O cur (a ++ String c1 (String c2 b))
    = (cur ++ a) :: splitFrom (String c1 (String c2 "")) O "" b.
Proof.
  intros Hne. induction a as [|d a IH]; intros H cur.
  - simpl append at 1. cbn [splitFrom].
    rewrite !prefix_cons, !Ascii.eqb_refl, prefix_nil. simpl.
    now rewrite append_nil_r.
  - rewrite Contains_cons in H. apply orb_false_iff in H.
    destruct H as [Hp Ha].
    change (String d a ++ String c1 (String c2 b))
      with (String d (a ++ String c1 (String c2 b))).
    cbn [splitFrom].
    assert (Hp' : prefix (String c1 (String c2 ""))
                    (String d (a ++ String c1 (String c2 b))) = false).
    { rewrite prefix_cons in *. destruct (Ascii.eqb c1 d); [| reflexivity].
      simpl andb in *. destruct a as [|e a].
      - simpl append. rewrite prefix_cons.
        apply not_eq_sym, Ascii.eqb_neq in Hne. now rewrite Hne.
      - change (String e a ++ String c1 (String c2 b))
          with (String e (a ++ String c1 (String c2 b))).
        rewrite prefix_cons in *. rewrite prefix_nil in *.
        now rewrite andb_true_r in *. }
    rewrite Hp', IH by assumption. now rewrite append_assoc_char.
Qed.

(** ** Lines *)

Lemma lines_cons (l l2 : string) (rest : list string) :
  lines (l :: l2 :: rest) = l ++ String LF (lines (l2 :: rest)).
Proof. reflexivity. Qed.

Lemma append_assoc (a b c : string) : (a ++ b) ++ c = a ++ (b ++ c).
Proof. induction a as [|d a IH]; simpl; [reflexivity | now rewrite IH]. Qed.

Lemma lines_app (g : list string) (l2 : string) (rest : list string) :
  g <> [] ->
  lines (g ++ l2 :: rest) = lines g ++ String LF (lines (l2 :: rest)).
Proof.
  induction g as [|l g IH]; intros Hg; [congruence |].
  destruct g as [|l' g].
  - reflexivity.
  - change ((l :: l' :: g) ++ l2 :: rest)%list
      with (l :: l' :: (g ++ l2 :: rest))%list.
    rewrite !lines_cons.
    change (l' :: (g ++ l2 :: rest))%list
      with ((l' :: g) ++ l2 :: rest)%list.
    rewrite IH by discriminate. rewrite append_assoc. reflexivity.
Qed.

Lemma lines_tag (c : ascii) (x : string) (rest : list string) :
  lines (String c x :: rest) = String c (lines (x :: rest)).
Proof. destruct rest; reflexivity. Qed.

(** A joined text of lines without newline holds a newline followed by [c]
    only where a line after the first starts with [c]. *)
Lemma Contains_lines_tag (c : ascii) (g : list string) :
  c <> LF ->
  Forall (without LF) g ->
  Forall (fun l => startsWith c l = false) (tl g) ->
  Contains (lines g) (String LF (String c "")) = false.
Proof.
  intros Hc. induction g as [|l g IH]; intros Hlf Htl; [reflexivity |].
  inversion Hlf as [|? ? Hl Hg]; subst.
  destruct g as [|l2 g].
  - simpl. now apply without_Contains.
  - rewrite lines_cons, Contains_after by assumption.
    simpl in Htl. inversion Htl as [|? ? Hl2 Hrest]; subst.
    rewrite Contains_cons, prefix_cons, Ascii.eqb_refl. cbn [andb].
    rewrite IH; [| assumption |].
    + rewrite orb_false_r. destruct l2 as [|d l2].
      * destruct g; [reflexivity |]. rewrite lines_cons. simpl append.
        rewrite prefix_cons. apply Ascii.eqb_neq in Hc. now rewrite Hc.
      * rewrite lines_tag, prefix_cons. simpl in Hl2.
        rewrite Ascii.eqb_sym, Hl2. reflexivity.
    + destruct g as [|l3 g]; [constructor |].
      inversion Hg as [|? ? Hl2' Hg']; subst.
      simpl. simpl in Hrest. exact Hrest.
Qed.

(** [strings.Split] gives back lines that were joined. *)
Lemma Split_lines (g : list string) :
  g <> [] -> Forall (without LF) g -> Split (lines g) (String LF "") = g.
Proof.
  unfold Split. induction g as [|l g IH]; intros Hne Hlf; [congruence |].
  inversion Hlf as [|? ? Hl Hg]; subst.
  destruct g as [|l2 g].
  - simpl lines. rewrite splitFrom_absent by exact Hl. reflexivity.
  - rewrite lines_cons, splitFrom_app_sep1 by assumption.
    rewrite IH by (assumption || discriminate). reflexivity.
Qed.

(** ** The working directory, when the marker is there *)

Lemma prefix_long (sep : string) :
  forall x y, (length sep <= length x)%nat ->
              prefix sep (x ++ y) = prefix sep x.
Proof.
  induction sep as [|c sep IH]; intros x y Hlen.
  - now rewrite !prefix_nil.
  - destruct x as [|d x]; [simpl in Hlen; lia |].
    change (String d x ++ y) with (String d (x ++ y)).
    rewrite !prefix_cons, IH by (simpl in Hlen; lia). reflexivity.
Qed.

Lemma prefix_self (sep b : string) : prefix sep (sep ++ b) = true.
Proof.
  induction sep as [|c sep IH]; [apply prefix_nil |].
  change (String c sep ++ b) with (String c (sep ++ b)).
  now rewrite prefix_cons, Ascii.eqb_refl, IH.
Qed.

Lemma length_append (a b : string) :
  length (a ++ b) = (length a + length b)%nat.
Proof. induction a as [|d a IH]; simpl; [reflexivity | now rewrite IH]. Qed.

Lemma splitFrom_skip (sep s1 : string) :
  forall cur b,
    splitFrom sep (length s1) cur (s1 ++ b) = splitFrom sep O cur b.
Proof. induction s1 as [|d s1 IH]; intros cur b; [reflexivity | apply IH]. Qed.

(** The piece before the first separator, in general. *)
Lemma splitFrom_app_sep (c : ascii) (sep a b : string) :
  noEarlierMatch (String c sep) a = true ->
  forall cur,
    splitFrom (String c sep) O cur (a ++ String c sep ++ b)
    = (cur ++ a) :: splitFrom (String c sep) O "" b.
Proof.
  induction a as [|d a IH]; intros H cur.
  - simpl append at 1.
    change (String c sep ++ b) with (String c (sep ++ b)).
    cbn [splitFrom].
    change (String c (sep ++ b)) with (String c sep ++ b).
    rewrite prefix_self. simpl Nat.pred.
    now rewrite splitFrom_skip, append_nil_r.
  - cbn [noEarlierMatch] in H. apply andb_true_iff in H.
    destruct H as [Hp Ha]. apply negb_true_iff in Hp.
    change (String d a ++ String c sep ++ b)
      with (String d (a ++ String c sep ++ b)).
    cbn [splitFrom].
    change (String d (a ++ String c sep ++ b))
      with (String d a ++ String c sep ++ b).
    rewrite <- append_assoc.
    rewrite prefix_long
      by (rewrite length_append; simpl; lia).
    rewrite Hp. rewrite IH by assumption. now rewrite append_assoc_char.
Qed.

Lemma Split_app_sep (c : ascii) (sep a b : string) :
  noEarlierMatch (String c sep) a = true ->
  Split (a ++ String c sep ++ b) (String c sep) = a :: Split b (String c sep).
Proof. intros H. unfold Split. now rewrite splitFrom_app_sep. Qed.

(** X17: when the output of the lookup holds the marker once, [getCwd]
    returns the text between the marker and the end of its line. *)
Theorem getCwd_reads_marked_line (w : world) (pid : Z)
    (pre path tail : string) :
  World.lsof_p w (Itoa pid) = (pre ++ cwdMarker ++ path ++ tail, None) ->
  noEarlierMatch cwdMarker pre = true ->
  Contains (path ++ tail) cwdMarker = false ->
  without LF path ->
  tail = "" \/ startsWith LF tail = true ->
  getCwd w pid = Ok path.
Proof.
  intros Hout Hpre Hrest Hpath Htail. unfold getCwd. rewrite Hout.
  unfold cwdMarker in *.
  change ("fcwd" ++ String LF "n")
    with (String "f" ("cwd" ++ String LF "n")) in *.
  rewrite (Split_app_sep "f" _ pre (path ++ tail) Hpre).
  rewrite Split_absent by exact Hrest.
  simpl List.length. change (2 <? 1)%nat with false. cbv iota.
  rewrite index_1. cbn [bind].
  destruct Htail as [-> | Htail].
  - rewrite append_nil_r, Split_absent by exact Hpath. reflexivity.
  - destruct tail as [|d tail]; [discriminate |].
    simpl in Htail. apply Ascii.eqb_eq in Htail. subst d.
    unfold Split. rewrite splitFrom_app_sep1 by assumption. reflexivity.
Qed.

Lemma getCwd_reads_marked_line_witness :
  getCwd (World.mk ("", None)
            (fun _ => (lines ["p123"; "fcwd"; "n/home/ally"; "frtd"; "n/"], None))
            (fun _ => None)) 123
  = Ok "/home/ally".
Proof.
  apply (getCwd_reads_marked_line _ 123 (String "p" (String "1" (String "2"
           (String "3" (String LF "")))))
           "/home/ally" (String LF (lines ["frtd"; "n/"]))).
  - reflexivity.
  - reflexivity.
  - reflexivity.
  - reflexivity.
  - right. reflexivity.
Defined.

(** ** Parsing the text lsof prints *)

Lemma tagFirst_lines (c : ascii) (x : string) (more : list string) :
  lines (tagFirst c (x :: more)) = String c (lines (x :: more)).
Proof. apply lines_tag. Qed.

(** Groups of lines, each but the first tagged with [c] on its first line,
    are the pieces of the split at a newline followed by [c]. *)
Lemma Split_groups (c : ascii) (groups : list (list string)) :
  c <> LF ->
  Forall (fun g => g <> [] /\ Forall (without LF) g
                   /\ Forall (fun l => startsWith c l = false) (tl g)) groups ->
  forall g0,
    g0 <> [] -> Forall (without LF) g0 ->
    Forall (fun l => startsWith c l = false) (tl g0) ->
    Split (lines (g0 ++ flat_map (tagFirst c) groups)) (String LF (String c ""))
    = lines g0 :: map lines groups.
Proof.
  intros Hc. induction groups as [|g gs IH]; intros Hgs g0 Hne Hlf Htl.
  - simpl. rewrite app_nil_r. apply Split_absent.
    now apply Contains_lines_tag.
  - inversion Hgs as [|? ? [Hg [Hglf Hgtl]] Hrest]; subst.
    destruct g as [|x more]; [congruence |].
    cbn [flat_map tagFirst].
    change ((String c x :: more) ++ flat_map (tagFirst c) gs)%list
      with (String c x :: (more ++ flat_map (tagFirst c) gs))%list.
    rewrite lines_app by assumption. rewrite lines_tag.
    unfold Split.
    rewrite splitFrom_app_sep2;
      [| now apply not_eq_sym | now apply Contains_lines_tag].
    simpl append. f_equal.
    change (x :: (more ++ flat_map (tagFirst c) gs))%list
      with ((x :: more) ++ flat_map (tagFirst c) gs)%list.
    exact (IH Hrest (x :: more) Hg Hglf Hgtl).
Qed.

Lemma flat_map_tagFirst {A : Type} (c : ascii) (f : A -> list string)
    (l : list A) :
  flat_map (fun a => tagFirst c (f a)) l = flat_map (tagFirst c) (map f l).
Proof.
  induction l as [|a l IH]; simpl; [reflexivity | now rewrite IH].
Qed.

Lemma without_literal (c d : ascii) (s : string) :
  d <> c -> without c s -> without c (String d s).
Proof. intros Hd Hs. apply without_cons. now split. Qed.

Section Rendered.

Variable options : settings.
Hypothesis noLookup : Settings.getCwd options = false.
Variable fd : string.
Hypothesis descriptor : plainDescriptor fd.

Lemma renderAddress_without_LF (c : connection) :
  wellFormedConnection c -> without LF (renderAddress c).
Proof.
  intros (_ & _ & _ & (Hla & _) & (Hlp & _) & (Hra & _) & (Hrp & _) & _).
  unfold renderAddress.
  apply without_app. split; [assumption |].
  apply without_literal; [discriminate |].
  apply without_app. split; [assumption |].
  destruct (_ && _); [reflexivity |].
  do 2 (apply without_literal; [discriminate |]).
  apply without_app. split; [assumption |].
  apply without_literal; [discriminate | assumption].
Qed.

Lemma connectionLines_without_LF (c : connection) :
  wellFormedConnection c -> Forall (without LF) (connectionLines fd c).
Proof.
  intros Hc. pose proof (renderAddress_without_LF c Hc) as Haddr.
  destruct Hc as (Hp & Hs & _). destruct descriptor as (Hfd & _).
  unfold connectionLines. repeat constructor.
  - exact Hfd.
  - apply without_literal; [discriminate | assumption].
  - apply without_literal; [discriminate | assumption].
  - do 4 (apply without_literal; [discriminate |]). assumption.
Qed.

Lemma Split_address_pair (a p : string) :
  without ":" a -> without ":" p -> Split (a ++ ":" ++ p) ":" = [a; p].
Proof.
  intros Ha Hp. unfold Split. simpl append.
  rewrite splitFrom_app_sep1 by assumption.
  now rewrite splitFrom_absent by assumption.
Qed.

Lemma without_address_pair (c : ascii) (a p : string) :
  c <> ":"%char -> without c a -> without c p -> without c (a ++ ":" ++ p).
Proof.
  intros Hc Ha Hp. apply without_app. split; [assumption |].
  apply without_literal; [now apply not_eq_sym | assumption].
Qed.

(** The two sides of the address field of a well-formed connection. *)
Lemma Split_renderAddress (c : connection) :
  wellFormedConnection c ->
  Split (renderAddress c) "->"
  = if (Connection.remoteAddress c =? "") && (Connection.remotePort c =? "")
    then [Connection.localAddress c ++ ":" ++ Connection.localPort c]
    else [Connection.localAddress c ++ ":" ++ Connection.localPort c;
          Connection.remoteAddress c ++ ":" ++ Connection.remotePort c].
Proof.
  intros (_ & _ & _ & (_ & _ & Hla) & (_ & _ & Hlp) & (_ & _ & Hra)
          & (_ & _ & Hrp) & _).
  unfold renderAddress.
  destruct ((Connection.remoteAddress c =? "") && (Connection.remotePort c =? "")).
  - replace (Connection.localAddress c ++ ":" ++ Connection.localPort c ++ "")
      with (Connection.localAddress c ++ ":" ++ Connection.localPort c)
      by (now rewrite (append_nil_r (Connection.localPort c))).
    apply Split_absent. apply without_Contains.
    apply without_address_pair; [discriminate | assumption | assumption].
  - replace (Connection.localAddress c ++ ":" ++ Connection.localPort c
             ++ "->" ++ Connection.remoteAddress c ++ ":"
             ++ Connection.remotePort c)
      with ((Connection.localAddress c ++ ":" ++ Connection.localPort c)
            ++ String "-" (String ">" (Connection.remoteAddress c ++ ":"
                                       ++ Connection.remotePort c)))
      by (rewrite !append_assoc; reflexivity).
    unfold Split. rewrite splitFrom_app_sep2.
    + rewrite splitFrom_absent; [reflexivity |].
      apply without_Contains.
      apply without_address_pair; [discriminate | assumption | assumption].
    + discriminate.
    + apply without_Contains.
      apply without_address_pair; [discriminate | assumption | assumption].
Qed.

(** The address field of a well-formed connection is read back, and the
    port allow-list is applied to its two ports. *)
Lemma parseAddress_rendered (c tmpConnection : connection) (valid : bool) :
  wellFormedConnection c ->
  Connection.remotePort tmpConnection = "" ->
  Connection.remoteAddress tmpConnection = "" ->
  parseAddress options (renderAddress c) tmpConnection valid
  = Ok (Connection.mk (Connection.protocol tmpConnection)
          (Connection.status tmpConnection)
          (Connection.remotePort c) (Connection.remoteAddress c)
          (Connection.localPort c) (Connection.localAddress c),
        if match Settings.portFilter options with
           | [] => true
           | _ => slicesContains (Settings.portFilter options)
                    (Connection.localPort c)
                  || slicesContains (Settings.portFilter options)
                       (Connection.remotePort c)
           end
        then valid else false).
Proof.
  intros Hc Htp Hta. pose proof (Split_renderAddress c Hc) as Hsplit.
  destruct Hc as (_ & _ & _ & (_ & Hla & _) & (_ & Hlp & _) & (_ & Hra & _)
                  & (_ & Hrp & _) & Hsentinel).
  unfold parseAddress. apply String.eqb_neq in Hsentinel.
  rewrite Hsentinel, Hsplit.
  destruct ((Connection.remoteAddress c =? "") && (Connection.remotePort c =? ""))
    eqn:Hempty.
  - apply andb_true_iff in Hempty. destruct Hempty as [Era Erp].
    apply String.eqb_eq in Era, Erp.
    simpl List.length. change (1 <? 1)%nat with false. cbv iota.
    rewrite index_0. cbn [bind].
    rewrite Split_address_pair by assumption.
    rewrite index_0, index_1. cbn [bind].
    unfold Connection.setLocalPort, Connection.setLocalAddress.
    cbn [Connection.protocol Connection.status Connection.remotePort
         Connection.remoteAddress Connection.localPort Connection.localAddress].
    rewrite Htp, Hta, Era, Erp.
    destruct (Settings.portFilter options) as [|port ports]; [reflexivity |].
    change (0 <? List.length (port :: ports))%nat with true. cbv iota.
    destruct (_ || _); reflexivity.
  - simpl List.length. change (1 <? 2)%nat with true. cbv iota.
    rewrite index_0, index_1. cbn [bind].
    rewrite !Split_address_pair by assumption.
    rewrite !index_0, !index_1. cbn [bind].
    unfold Connection.setRemotePort, Connection.setRemoteAddress,
      Connection.setLocalPort, Connection.setLocalAddress.
    cbn [Connection.protocol Connection.status Connection.remotePort
         Connection.remoteAddress Connection.localPort Connection.localAddress].
    destruct (Settings.portFilter options) as [|port ports]; [reflexivity |].
    change (0 <? List.length (port :: ports))%nat with true. cbv iota.
    destruct (_ || _); reflexivity.
Qed.

Lemma parseProperty_descriptor (st : connection * bool) :
  parseProperty options st fd = Ok st.
Proof.
  destruct descriptor as (_ & HP & Hn & HT).
  destruct st as [tmpConnection valid]. unfold parseProperty.
  destruct fd as [|d rest]; [reflexivity |]. simpl in HP, Hn, HT.
  now rewrite HP, Hn, HT.
Qed.

(** A well-formed connection is read back from its lines, valid exactly
    when it passes the filters. *)
Lemma parseConnection_rendered (c : connection) :
  wellFormedConnection c ->
  parseConnection options (lines (connectionLines fd c))
  = Ok (c, passesFilters options c).
Proof.
  intros Hc. unfold parseConnection.
  rewrite Split_lines;
    [| discriminate | now apply connectionLines_without_LF].
  unfold connectionLines. cbn [parseProperties].
  rewrite parseProperty_descriptor. cbn [bind].
  change (parseProperty options (Connection.zero, true)
            ("P" ++ Connection.protocol c))
    with (Ok (A := connection * bool)
            (Connection.setProtocol (Connection.protocol c) Connection.zero, true)).
  cbn [bind].
  change (parseProperty options
            (Connection.setProtocol (Connection.protocol c) Connection.zero, true)
            ("n" ++ renderAddress c))
    with (parseAddress options (renderAddress c)
            (Connection.setProtocol (Connection.protocol c) Connection.zero) true).
  rewrite parseAddress_rendered by (assumption || reflexivity). cbn [bind].
  rewrite parseStatus_TST. cbn [bind].
  destruct Hc as (_ & _ & Hclosed & _).
  apply String.eqb_neq in Hclosed. rewrite Hclosed. cbn [andb].
  unfold passesFilters.
  destruct c as [proto st rp ra lp la]. simpl.
  destruct (match Settings.portFilter options with
            | [] => true
            | _ :: _ => slicesContains (Settings.portFilter options) lp
                        || slicesContains (Settings.portFilter options) rp
            end);
    destruct (Settings.listenOnly options && negb (st =? "LISTEN"));
    reflexivity.
Qed.

Lemma parseConnections_rendered (conns : list connection) :
  Forall wellFormedConnection conns ->
  forall allConnections,
    parseConnections options
      (map (fun c => lines (connectionLines fd c)) conns) allConnections
    = Ok (allConnections ++ filter (passesFilters options) conns)%list.
Proof.
  induction conns as [|c conns IH]; intros Hall allConnections;
    cbn [map parseConnections filter].
  - now rewrite app_nil_r.
  - inversion Hall as [|? ? Hc Hrest]; subst.
    rewrite parseConnection_rendered by assumption. cbn [bind].
    rewrite IH by assumption.
    destruct (passesFilters options c); [now rewrite <- app_assoc | reflexivity].
Qed.

Variable w : world.
Variable pidText : Z -> string.

(** The lines of a process: none holds a newline, and after the first none
    starts with [p]. *)
Lemma connectionLines_clean (conns : list connection) :
  Forall wellFormedConnection conns ->
  Forall (without LF)
    (flat_map (fun c => tagFirst "f" (connectionLines fd c)) conns)
  /\ Forall (fun l => startsWith "p" l = false)
       (flat_map (fun c => tagFirst "f" (connectionLines fd c)) conns).
Proof.
  induction conns as [|c conns IH]; intros Hall; [split; constructor |].
  inversion Hall as [|? ? Hc Hrest]; subst.
  destruct (IH Hrest) as [IH1 IH2].
  pose proof (connectionLines_without_LF c Hc) as Hlf.
  cbn [flat_map]. split; apply Forall_app; split; try assumption.
  - unfold connectionLines in *. cbn [tagFirst].
    inversion Hlf as [|? ? Hfd Hmore]; subst.
    constructor; [| assumption].
    apply without_literal; [discriminate | assumption].
  - unfold connectionLines. cbn [tagFirst]. repeat constructor.
Qed.

Lemma processLines_clean (p : process) :
  wellFormedProcess pidText p ->
  processLines pidText fd p <> []
  /\ Forall (without LF) (processLines pidText fd p)
  /\ Forall (fun l => startsWith "p" l = false)
       (tl (processLines pidText fd p)).
Proof.
  intros (_ & Hpid & Hname & Huser & _ & Hconns).
  destruct (connectionLines_clean _ Hconns) as [H1 H2].
  unfold processLines. split; [discriminate |]. split.
  - apply Forall_app. split; [| assumption].
    repeat constructor; try assumption;
      (apply without_literal; [discriminate | assumption]).
  - simpl. repeat constructor. exact H2.
Qed.

(** A well-formed process is read back from its block, filtered: the
    first block still carries its [p]. *)
Lemma parseProcess_rendered (processIndex : nat) (p : process) :
  wellFormedProcess pidText p ->
  parseProcess w options processIndex
    (if (processIndex =? 0)%nat
     then String "p" (lines (processLines pidText fd p))
     else lines (processLines pidText fd p))
  = Ok (expectedProcess options p).
Proof.
  intros (Hatoi & Hpid & Hname & Huser & Hdir & Hconns).
  set (first := if (processIndex =? 0)%nat
                then String "p" (pidText (Process.id p))
                else pidText (Process.id p)).
  set (g0 := [first; "c" ++ Process.name p; "L" ++ Process.username p]).
  assert (Hblock :
            (if (processIndex =? 0)%nat
             then String "p" (lines (processLines pidText fd p))
             else lines (processLines pidText fd p))
            = lines (g0 ++ flat_map (tagFirst "f")
                             (map (connectionLines fd) (Process.connections p)))).
  { unfold processLines, g0, first.
    rewrite flat_map_tagFirst.
    destruct (processIndex =? 0)%nat; [| reflexivity].
    cbn [List.app]. now rewrite lines_tag. }
  rewrite Hblock. clear Hblock.
  assert (Hfirst : without LF first).
  { unfold first. destruct (processIndex =? 0)%nat; [| assumption].
    apply without_literal; [discriminate | assumption]. }
  assert (Hg0 : Forall (without LF) g0).
  { unfold g0. repeat constructor; try assumption;
      (apply without_literal; [discriminate | assumption]). }
  unfold parseProcess.
  rewrite (Split_groups "f"); try assumption; try discriminate.
  2: { apply Forall_map. apply Forall_forall. intros c Hc.
       rewrite Forall_forall in Hconns. specialize (Hconns c Hc).
       split; [discriminate |]. split.
       - now apply connectionLines_without_LF.
       - unfold connectionLines. simpl. repeat constructor. }
  2: { unfold g0. simpl. repeat constructor. }
  rewrite index_0. cbn [bind].
  rewrite Split_lines by (assumption || discriminate).
  unfold g0 at 1. rewrite index_0. cbn [bind].
  assert (Hstrip : (if (processIndex =? 0)%nat then strFrom 1 first else Ok first)
                   = Ok (pidText (Process.id p))).
  { unfold first. destruct (processIndex =? 0)%nat; reflexivity. }
  rewrite Hstrip. cbn [bind]. rewrite Hatoi. cbn [bind].
  rewrite noLookup. cbn [bind].
  unfold g0. rewrite index_1. cbn [bind].
  change (strFrom 1 ("c" ++ Process.name p)) with (Ok (A := string) (Process.name p)).
  cbn [bind]. unfold expectedProcess.
  assert (Hname' :
            negb (0 <? List.length (Settings.nameFilter options))%nat
            || slicesContains (Settings.nameFilter options) (Process.name p)
            = match Settings.nameFilter options with
              | [] => true
              | _ :: _ => slicesContains (Settings.nameFilter options)
                            (Process.name p)
              end).
  { destruct (Settings.nameFilter options); reflexivity. }
  rewrite Hname'. clear Hname'.
  destruct (match Settings.nameFilter options with
            | [] => true
            | _ :: _ => slicesContains (Settings.nameFilter options)
                          (Process.name p)
            end); [| reflexivity].
  change (index [first; "c" ++ Process.name p; "L" ++ Process.username p] 2)
    with (Ok (A := string) ("L" ++ Process.username p)).
  cbn [bind].
  change (strFrom 1 ("L" ++ Process.username p))
    with (Ok (A := string) (Process.username p)).
  cbn [bind sliceFrom1].
  rewrite map_map.
  rewrite parseConnections_rendered by assumption. cbn [bind List.app].
  rewrite Hdir.
  destruct (filter (passesFilters options) (Process.connections p));
    reflexivity.
Qed.

Lemma parseBlocks_rendered (rest : list process) :
  Forall (wellFormedProcess pidText) rest ->
  forall processIndex allProcesses,
    parseBlocks w options (S processIndex)
      (map (fun p => lines (processLines pidText fd p)) rest) allProcesses
    = Ok (allProcesses ++ expectedSnapshot options rest)%list.
Proof.
  unfold expectedSnapshot.
  induction rest as [|p rest IH]; intros Hall processIndex allProcesses;
    cbn [map parseBlocks keepSome].
  - now rewrite app_nil_r.
  - inversion Hall as [|? ? Hp Hrest]; subst.
    pose proof (parseProcess_rendered (S processIndex) p Hp) as Hparse.
    cbn [Nat.eqb] in Hparse. rewrite Hparse. cbn [bind].
    rewrite IH by assumption.
    destruct (expectedProcess options p);
      [now rewrite <- app_assoc | reflexivity].
Qed.

(** With no filter active a process with a connection is expected as it
    is. *)
Lemma expectedSnapshot_unfiltered (ps : list process) :
  nothingFiltered options ->
  Forall (fun p => Process.connections p <> []) ps ->
  expectedSnapshot options ps = ps.
Proof.
  intros (Hnames & Hports & Hlisten) Hall. unfold expectedSnapshot.
  induction ps as [|p ps IH]; [reflexivity |].
  inversion Hall as [|? ? Hp Hrest]; subst.
  cbn [map keepSome]. unfold expectedProcess at 1. rewrite Hnames.
  assert (Hfilter : filter (passesFilters options) (Process.connections p)
                    = Process.connections p).
  { apply forallb_filter_id. apply forallb_forall. intros c _.
    unfold passesFilters. now rewrite Hports, Hlisten. }
  rewrite Hfilter. destruct p as [pid name dir conns user]. simpl in *.
  destruct conns; [congruence |]. now rewrite IH.
Qed.

(** X18: the text lsof prints for a non-empty list of well-formed
    processes is parsed to exactly the processes whose name passes the name
    allow-list, each with exactly its connections that pass the port
    allow-list and the listen-only flag, in the order printed; with no
    filter active and a connection in every process the snapshot is the
    printed list itself. *)
Theorem parse_of_printed (ps : list process) :
  ps <> [] ->
  Forall (wellFormedProcess pidText) ps ->
  parseLsof w (lsofText pidText fd ps) options
  = Ok (expectedSnapshot options ps)
  /\ (nothingFiltered options ->
      Forall (fun p => Process.connections p <> []) ps ->
      parseLsof w (lsofText pidText fd ps) options = Ok ps).
Proof.
  intros Hne Hall.
  assert (Hparse : parseLsof w (lsofText pidText fd ps) options
                   = Ok (expectedSnapshot options ps)).
  { destruct ps as [|p rest]; [congruence |].
    inversion Hall as [|? ? Hp Hrest]; subst.
    unfold parseLsof, lsofText. cbn [flat_map].
    rewrite flat_map_tagFirst.
    destruct (processLines_clean p Hp) as (Hp1 & Hp2 & Hp3).
    rewrite (Split_groups "p").
    - cbn [parseBlocks].
      destruct (processLines pidText fd p) as [|x more] eqn:Hlines;
        [congruence |].
      rewrite tagFirst_lines, <- Hlines.
      pose proof (parseProcess_rendered O p Hp) as Hparse.
      cbn [Nat.eqb] in Hparse.
      rewrite Hparse. cbn [bind].
      rewrite map_map, parseBlocks_rendered by assumption.
      unfold expectedSnapshot. cbn [map keepSome].
      destruct (expectedProcess options p); reflexivity.
    - discriminate.
    - apply Forall_map. apply Forall_forall. intros q Hq.
      rewrite Forall_forall in Hrest. now apply processLines_clean, Hrest.
    - destruct (processLines pidText fd p); [congruence | discriminate].
    - destruct (processLines pidText fd p) as [|x more]; [congruence |].
      cbn [tagFirst]. inversion Hp2; subst. constructor; [| assumption].
      apply without_literal; [discriminate | assumption].
    - destruct (processLines pidText fd p) as [|x more]; [congruence |].
      exact Hp3. }
  split; [exact Hparse |].
  intros Hnone Hconns. rewrite Hparse.
  now rewrite expectedSnapshot_unfiltered.
Qed.

End Rendered.

Lemma parse_of_printed_witness :
  parseLsof quietWorld
    (lsofText Itoa "3"
       [Process.mk 123 "bash" ""
          [Connection.mk "TCP" "ESTABLISHED" "5555" "10.0.0.5" "22" "127.0.0.1"]
          "ally";
        Process.mk 10 "nginx" "" [webConnection "80"; webConnection "443"] "root"])
    (withPorts ["443"; "5555"])
  = Ok [Process.mk 123 "bash" ""
          [Connection.mk "TCP" "ESTABLISHED" "5555" "10.0.0.5" "22" "127.0.0.1"]
          "ally";
        Process.mk 10 "nginx" "" [webConnection "443"] "root"].
Proof.
  apply (parse_of_printed (withPorts ["443"; "5555"]) eq_refl "3").
  - repeat split.
  - discriminate.
  - repeat constructor; discriminate.
Defined.

(** ** A header cut short *)

(** X19: a text of a single line is never accepted: the parse ends with an
    error of the PID line or of the lookup, or with a run-time panic on the
    missing name line. *)
Theorem single_line_is_rejected (w : world) (raw : string) (options : settings) :
  without LF raw ->
  (exists e, parseLsof w raw options = Err e)
  \/ (exists q, parseLsof w raw options = Panic q).
Proof.
  intros Hraw. unfold parseLsof.
  rewrite (Split_absent raw (String LF "p"))
    by (now apply without_Contains).
  cbn [parseBlocks]. unfold parseProcess.
  rewrite (Split_absent raw (String LF "f"))
    by (now apply without_Contains).
  rewrite index_0. cbn [bind].
  rewrite (Split_absent raw (String LF "")) by exact Hraw.
  rewrite index_0. cbn [bind Nat.eqb].
  destruct (strFrom 1 raw) as [pidText | e | q]; cbn [bind];
    [| left; now exists e | right; now exists q].
  destruct (Atoi pidText) as [pid | e | q]; cbn [bind];
    [| left; now exists e | right; now exists q].
  destruct (if Settings.getCwd options then getCwd w pid else Ok "")
    as [cwd | e | q]; cbn [bind];
    [| left; now exists e | right; now exists q].
  right. now exists IndexOutOfRange.
Qed.

Lemma single_line_is_rejected_witness :
  (exists e, parseLsof quietWorld "p123" noFilters = Err e)
  \/ (exists q, parseLsof quietWorld "p123" noFilters = Panic q).
Proof.
  apply (single_line_is_rejected quietWorld "p123" noFilters).
  reflexivity.
Defined.

(** ** The decimal text of an id *)

Lemma digits_of_uint_acc (d : Decimal.uint) :
  forall acc,
    digits (Zpos acc) (NilEmpty.string_of_uint d)
    = Some (Zpos (Pos.of_uint_acc d acc)).
Proof.
  induction d; intros acc; cbn [NilEmpty.string_of_uint digits Pos.of_uint_acc];
    [reflexivity | ..];
    match goal with
    | |- context [isDigit ?c] => change (isDigit c) with true
    end; cbv iota;
    match goal with
    | |- digits ?v _ = Some (Zpos (Pos.of_uint_acc _ ?a)) =>
        replace v with (Zpos a)
          by (match goal with
              | |- context [digitVal ?c] =>
                  let k := eval vm_compute in (digitVal c) in
                  change (digitVal c) with k
              end; lia)
    end; apply IHd.
Qed.

Lemma digits_of_uint (d : Decimal.uint) :
  digits 0 (NilEmpty.string_of_uint d) = Some (Z.of_N (Pos.of_uint d)).
Proof.
  induction d; cbn [NilEmpty.string_of_uint digits Pos.of_uint];
    [reflexivity | ..];
    match goal with
    | |- context [isDigit ?c] => change (isDigit c) with true
    end; cbv iota;
    [exact IHd | ..];
    match goal with
    | |- digits ?v _ = Some (Z.of_N (Npos (Pos.of_uint_acc _ ?a))) =>
        change v with (Zpos a)
    end; apply digits_of_uint_acc.
Qed.

Lemma string_of_uint_without_LF (d : Decimal.uint) :
  without LF (NilEmpty.string_of_uint d).
Proof.
  induction d; cbn [NilEmpty.string_of_uint]; [reflexivity | ..];
    (apply without_literal; [discriminate | assumption]).
Qed.

Lemma Itoa_positive (p : positive) :
  Itoa (Zpos p) = NilEmpty.string_of_uint (Pos.to_uint p)
  /\ Itoa (Zneg p) = String "-" (NilEmpty.string_of_uint (Pos.to_uint p)).
Proof.
  unfold Itoa. cbn [Z.to_int NilZero.string_of_int].
  unfold NilZero.string_of_uint.
  pose proof (DecimalPos.Unsigned.to_uint_nonnil p) as Hnil.
  destruct (Pos.to_uint p); [congruence | ..]; split; reflexivity.
Qed.

(** The text [strconv.Itoa] prints for an id in the range of [int] is read
    back by [strconv.Atoi], and holds no newline. *)
Lemma Atoi_Itoa (n : Z) :
  (minInt <= n <= maxInt)%Z -> Atoi (Itoa n) = Ok n /\ without LF (Itoa n).
Proof.
  intros Hrange. destruct n as [|p|p].
  - split; reflexivity.
  - destruct (Itoa_positive p) as [-> _].
    pose proof (digits_of_uint (Pos.to_uint p)) as Hd.
    rewrite DecimalPos.Unsigned.of_to in Hd.
    pose proof (DecimalPos.Unsigned.to_uint_nonnil p) as Hnil.
    split; [| apply string_of_uint_without_LF].
    unfold Atoi.
    destruct (Pos.to_uint p) as [|d|d|d|d|d|d|d|d|d|d]; [congruence | ..];
      cbn [NilEmpty.string_of_uint fst snd] in *; rewrite Hd;
      cbn [Z.of_N];
      (replace ((minInt <=? Z.pos p)%Z && (Z.pos p <=? maxInt)%Z) with true;
       [reflexivity |
        symmetry; apply andb_true_iff; split; apply Z.leb_le; lia]).
  - destruct (Itoa_positive p) as [_ ->].
    pose proof (digits_of_uint (Pos.to_uint p)) as Hd.
    rewrite DecimalPos.Unsigned.of_to in Hd.
    pose proof (DecimalPos.Unsigned.to_uint_nonnil p) as Hnil.
    split;
      [| apply without_literal;
         [discriminate | apply string_of_uint_without_LF]].
    unfold Atoi. cbn [fst snd].
    destruct (Pos.to_uint p) as [|d|d|d|d|d|d|d|d|d|d]; [congruence | ..];
      cbn [NilEmpty.string_of_uint] in *; rewrite Hd;
      cbn [Z.of_N];
      (replace ((minInt <=? - Z.pos p)%Z && (- Z.pos p <=? maxInt)%Z) with true;
       [reflexivity |
        symmetry; apply andb_true_iff; split; apply Z.leb_le; lia]).
Qed.

(** A process whose id is in the range of [int] and whose fields are well
    formed is well formed with its id printed by [strconv.Itoa]. *)
Lemma wellFormedProcess_Itoa (p : process) :
  (minInt <= Process.id p <= maxInt)%Z ->
  without LF (Process.name p) ->
  without LF (Process.username p) ->
  Process.directory p = "" ->
  Forall wellFormedConnection (Process.connections p) ->
  wellFormedProcess Itoa p.
Proof.
  intros Hrange Hname Huser Hdir Hconns.
  destruct (Atoi_Itoa (Process.id p) Hrange) as [Hatoi Hlf].
  repeat split; assumption.
Qed.

Lemma Atoi_range (s : string) (n : Z) :
  Atoi s = Ok n -> (minInt <= n <= maxInt)%Z.
Proof.
  unfold Atoi. intros H.
  destruct (snd _); [discriminate |].
  destruct (digits 0 _) as [v|]; [| discriminate].
  destruct ((minInt <=? _)%Z && (_ <=? maxInt)%Z) eqn:Hr; [| discriminate].
  injection H as <-. apply andb_true_iff in Hr. destruct Hr as [H1 H2].
  apply Z.leb_le in H1, H2. lia.
Qed.

(** X20: the id of every process of a snapshot is printed by
    [strconv.Itoa] as a text that [strconv.Atoi] reads back to the same id:
    the PID handed to [kill] and to [lsof -p], and shown in the PID column,
    denotes the process that was parsed. *)
Theorem snapshot_ids_print_back (w : world) (raw : string) (options : settings)
    (ps : list process) :
  parseLsof w raw options = Ok ps ->
  Forall (fun p => Atoi (Itoa (Process.id p)) = Ok (Process.id p)) ps.
Proof.
  unfold parseLsof. apply parseBlocks_Forall; [| constructor].
  intros i b p H. apply parseProcess_Some in H.
  destruct H as (header & first & pidText & second & third & segments & H).
  destruct H as (_ & _ & _ & Hatoi & _).
  apply Atoi_range in Hatoi. now apply Atoi_Itoa.
Qed.

Lemma snapshot_ids_print_back_witness :
  Forall (fun p => Atoi (Itoa (Process.id p)) = Ok (Process.id p))
    [Process.mk 123 "bash" ""
       [Connection.mk "TCP" "ESTABLISHED" "5555" "10.0.0.5" "22" "127.0.0.1"]
       "ally"].
Proof.
  apply (snapshot_ids_print_back quietWorld
           (lines ["p+0123"; "cbash"; "Lally"; "ftcp"; "PTCP";
                   "n127.0.0.1:22->10.0.0.5:5555"; "TST=ESTABLISHED"])
           noFilters).
  vm_compute. reflexivity.
Defined.
